(** * SpectralTilt: the tilt-filter synthesis unit of lsp-dsp-units

    A shallow embedding of [src/main/filters/SpectralTilt.cpp] and the
    properties of its parameter synchronisation ([update_settings]) and of
    its three streaming entry points.

    The unit computes on C [float]s.  The embedding is written once, over an
    interface [FloatOps] of the arithmetic the source uses, so the control
    flow of the source is kept as it is and the statements about it hold for
    every arithmetic behind the interface.  The interface is instantiated at
    the real numbers, which is the "exact real arithmetic" reading of the
    gain-normalisation contract and the carrier of all concrete runs. *)

From Stdlib Require Import Reals Lra QArith Qreals ZArith NArith List Lia Bool.
Import ListNotations.

Close Scope Q_scope.

Set Implicit Arguments.

(** ** The arithmetic of the source *)

(** The operations of C and of libm that the unit applies to [float]s.
    [f_lit q] is the value of the decimal literal [q] of the source,
    [f_of_size n] the conversion of the [size_t] value [n], [f_pi] the
    constant [M_PI].  The promotions to [double] the C compiler inserts
    around [M_PI] are not distinguished: there is one carrier.
    The only law is the order of the two default band edges. *)
Class FloatOps (F : Type) : Type := {
  f_lit : Q -> F;
  f_of_size : N -> F;
  f_pi : F;
  fadd : F -> F -> F;
  fsub : F -> F -> F;
  fmul : F -> F -> F;
  fdiv : F -> F -> F;
  fneg : F -> F;
  fle : F -> F -> bool;
  fge : F -> F -> bool;
  feq : F -> F -> bool;
  sqrtf : F -> F;
  tanf : F -> F;
  powf : F -> F -> F;
  dfl_band_ordered : fge (f_lit 0.1) (f_lit 20000) = false
}.

(** [size_t]: a 64-bit unsigned integer, kept in [N] with its wrap-around
    written out. *)
Definition SIZE_MODULUS : N := 18446744073709551616.

Definition size_wrap (n : N) : N := (n mod SIZE_MODULUS)%N.

(** [n - 1] on [size_t]. *)
Definition size_pred (n : N) : N := size_wrap (n + (SIZE_MODULUS - 1)).

(** [#define]s of the source. *)
Definition MAX_ORDER : N := 100.
Definition BUF_LIM_SIZE : nat := 256.
Definition DFL_LOWER_FREQUENCY_Q : Q := 0.1.
Definition DFL_UPPER_FREQUENCY_Q : Q := 20000.

(** ** Types *)

(** The enumerations are declared in the unit's header, which is not part of
    the sources at hand; their members are those the source names.  A C++
    enumeration can hold a value none of its members names: the last
    constructor of each type stands for every such value, which the source
    reaches through its [default:] labels. *)
Inductive stlt_slope_unit_t : Type :=
| STLT_SLOPE_UNIT_NEPER_PER_NEPER
| STLT_SLOPE_UNIT_DB_PER_OCTAVE
| STLT_SLOPE_UNIT_DB_PER_DECADE
| STLT_SLOPE_UNIT_NONE
| STLT_SLOPE_UNIT_UNKNOWN.

Inductive stlt_norm_t : Type :=
| STLT_NORM_NONE
| STLT_NORM_AT_DC
| STLT_NORM_AT_NYQUIST
| STLT_NORM_AUTO
| STLT_NORM_UNKNOWN.

Definition slope_unit_eqb (a b : stlt_slope_unit_t) : bool :=
  match a, b with
  | STLT_SLOPE_UNIT_NEPER_PER_NEPER, STLT_SLOPE_UNIT_NEPER_PER_NEPER
  | STLT_SLOPE_UNIT_DB_PER_OCTAVE, STLT_SLOPE_UNIT_DB_PER_OCTAVE
  | STLT_SLOPE_UNIT_DB_PER_DECADE, STLT_SLOPE_UNIT_DB_PER_DECADE
  | STLT_SLOPE_UNIT_NONE, STLT_SLOPE_UNIT_NONE
  | STLT_SLOPE_UNIT_UNKNOWN, STLT_SLOPE_UNIT_UNKNOWN => true
  | _, _ => false
  end.

Definition norm_eqb (a b : stlt_norm_t) : bool :=
  match a, b with
  | STLT_NORM_NONE, STLT_NORM_NONE
  | STLT_NORM_AT_DC, STLT_NORM_AT_DC
  | STLT_NORM_AT_NYQUIST, STLT_NORM_AT_NYQUIST
  | STLT_NORM_AUTO, STLT_NORM_AUTO
  | STLT_NORM_UNKNOWN, STLT_NORM_UNKNOWN => true
  | _, _ => false
  end.

Section Types.

Variable F : Type.

(** [bilinear_spec_t]: the first-order analog section
    H(s) = (b1 s + b0) / (a1 s + a0). *)
Record bilinear_spec_t : Type := {
  b0 : F; b1 : F;
  a0 : F; a1 : F
}.

(** [dsp::f_cascade_t]: an analog second-order section, numerator [t],
    denominator [b], constant term first. *)
Record f_cascade_t : Type := {
  t0 : F; t1 : F; t2 : F;
  bc0 : F; bc1 : F; bc2 : F
}.

(** [dsp::biquad_x1_t]: the coefficients of one digital biquad. *)
Record biquad_x1_t : Type := {
  bq_b0 : F; bq_b1 : F; bq_b2 : F;
  bq_a1 : F; bq_a2 : F
}.

(** Modelled from the spec: [FilterBank], the chain of biquad sections of
    this repository, whose source is not at hand.  It has a capacity set
    by [init], an ordered list of sections filled inside a [begin]/[end]
    transaction, and the delay-line memory of the sections, two cells
    each, which [process] carries from call to call. *)
Record FilterBank : Type := {
  nMaxItems : nat;
  vChains : list biquad_x1_t;
  vDelay : list (F * F)
}.

(** The fields of [class SpectralTilt]. *)
Record SpectralTilt : Type := {
  nOrder : N;
  enSlopeUnit : stlt_slope_unit_t;
  enNorm : stlt_norm_t;
  fSlopeVal : F;
  fSlopeNepNep : F;
  fLowerFrequency : F;
  fUpperFrequency : F;
  nSampleRate : N;
  sFilter : FilterBank;
  bBypass : bool;
  bSync : bool
}.

End Types.

Arguments Build_bilinear_spec_t {F}.
Arguments Build_f_cascade_t {F}.
Arguments Build_biquad_x1_t {F}.
Arguments Build_FilterBank {F}.
Arguments Build_SpectralTilt {F}.

(** [dsp::bilinear_transform_x1] of lsp-dsp-lib, for one section: a library
    of its own, taken as a parameter. *)
Class DspLib (F : Type) : Type := {
  bilinear_transform_x1 : f_cascade_t F -> F -> biquad_x1_t F
}.

(** ** The unit *)

Section Model.

Context {F : Type} {FO : FloatOps F} {DL : DspLib F}.

Definition DFL_LOWER_FREQUENCY : F := f_lit DFL_LOWER_FREQUENCY_Q.
Definition DFL_UPPER_FREQUENCY : F := f_lit DFL_UPPER_FREQUENCY_Q.

(** *** The filter chain *)

(** Modelled from the spec: a [FilterBank] before [init], without room. *)
Definition fb_empty : FilterBank F :=
  {| nMaxItems := 0; vChains := []; vDelay := [] |}.

(** Modelled from the spec: [FilterBank::init(maxSections)] of this
    repository pre-allocates the capacity. *)
Definition fb_init (filters : N) (fb : FilterBank F) : FilterBank F :=
  {| nMaxItems := N.to_nat filters; vChains := []; vDelay := [] |}.

(** Modelled from the spec: [FilterBank::begin()] opens the rebuild of the
    chain, which starts without sections. *)
Definition fb_begin (fb : FilterBank F) : FilterBank F :=
  {| nMaxItems := nMaxItems fb; vChains := []; vDelay := vDelay fb |}.

(** Modelled from the spec: [FilterBank::add_chain()] gives the next free
    section slot, or nothing (the null pointer) when the capacity is
    used up. *)
Definition fb_add_chain (fb : FilterBank F) : option nat :=
  if length (vChains fb) <? nMaxItems fb then Some (length (vChains fb))
  else None.

(** The write through the pointer [add_chain] returned: the slot is the
    next one of the chain. *)
Definition fb_store (fb : FilterBank F) (slot : nat) (bq : biquad_x1_t F)
  : FilterBank F :=
  {| nMaxItems := nMaxItems fb;
     vChains := firstn slot (vChains fb) ++ [bq];
     vDelay := vDelay fb |}.

(** Modelled from the spec: [FilterBank::end(flag)] closes the rebuild;
    with the flag set the delay lines start afresh, two zero cells for
    each section. *)
Definition fb_end (flag : bool) (fb : FilterBank F) : FilterBank F :=
  {| nMaxItems := nMaxItems fb;
     vChains := vChains fb;
     vDelay := if flag
               then repeat (f_lit 0, f_lit 0) (length (vChains fb))
               else vDelay fb |}.

(** Modelled from the spec: one sample through one section.  The section
    is run in transposed form on its two delay cells, with the
    denominator coefficients stored with the sign the chain adds. *)
Definition biquad_step (f : biquad_x1_t F) (d : F * F) (x : F)
  : (F * F) * F :=
  let s2 := fadd (fmul (bq_b0 f) x) (fst d) in
  let p1 := fadd (fmul (bq_b1 f) x) (fmul (bq_a1 f) s2) in
  let p2 := fadd (fmul (bq_b2 f) x) (fmul (bq_a2 f) s2) in
  ((fadd (snd d) p1, p2), s2).

(** Modelled from the spec: one sample through the sections in order. *)
Fixpoint cascade_step (fs : list (biquad_x1_t F)) (ds : list (F * F))
  (x : F) : list (F * F) * F :=
  match fs with
  | [] => (ds, x)
  | f :: fs' =>
      let '(d', y) := biquad_step f (hd (f_lit 0, f_lit 0) ds) x in
      let '(ds', z) := cascade_step fs' (tl ds) y in
      (d' :: ds', z)
  end.

(** Modelled from the spec: a run of samples through the chain, the delay
    cells passed from each sample to the next. *)
Fixpoint cascade_run (fs : list (biquad_x1_t F)) (ds : list (F * F))
  (xs : list F) : list (F * F) * list F :=
  match xs with
  | [] => (ds, [])
  | x :: xs' =>
      let '(ds1, y) := cascade_step fs ds x in
      let '(ds2, ys) := cascade_run fs ds1 xs' in
      (ds2, y :: ys)
  end.

(** Modelled from the spec: [FilterBank::process(dst, src, count)] runs
    [count] samples of [src] through the chain into [dst] and keeps the
    delay lines for the next call.  Both buffers hold at least [count]
    samples. *)
Definition fb_process (fb : FilterBank F) (dst src : list F) (count : nat)
  : FilterBank F * list F :=
  let '(ds, out) := cascade_run (vChains fb) (vDelay fb) (firstn count src) in
  ({| nMaxItems := nMaxItems fb; vChains := vChains fb; vDelay := ds |},
   out ++ skipn count dst).

(** *** Buffer primitives of lsp-dsp-lib

    Elementwise on the first [count] samples, as the comments at their
    calls in the source say; the rest of [dst] is left as it is. *)

Fixpoint zip_with (op : F -> F -> F) (xs ys : list F) : list F :=
  match xs, ys with
  | x :: xs', y :: ys' => op x y :: zip_with op xs' ys'
  | _, _ => []
  end.

Definition dsp_fill_zero (dst : list F) (count : nat) : list F :=
  repeat (f_lit 0) count ++ skipn count dst.

Definition dsp_copy (dst src : list F) (count : nat) : list F :=
  firstn count src ++ skipn count dst.

Definition dsp_add2 (dst src : list F) (count : nat) : list F :=
  zip_with fadd (firstn count dst) (firstn count src) ++ skipn count dst.

Definition dsp_mul2 (dst src : list F) (count : nat) : list F :=
  zip_with fmul (firstn count dst) (firstn count src) ++ skipn count dst.

(** *** Construction *)

(** [SpectralTilt::construct]; [nSampleRate = -1] on [size_t]. *)
Definition construct : SpectralTilt F :=
  {| nOrder := 1;
     enSlopeUnit := STLT_SLOPE_UNIT_NEPER_PER_NEPER;
     enNorm := STLT_NORM_AUTO;
     fSlopeVal := f_lit 0.5;
     fSlopeNepNep := f_lit 0.5;
     fLowerFrequency := DFL_LOWER_FREQUENCY;
     fUpperFrequency := DFL_UPPER_FREQUENCY;
     nSampleRate := size_pred 0;
     sFilter := fb_init MAX_ORDER fb_empty;
     bBypass := false;
     bSync := true |}.

(** [SpectralTilt::bilinear_coefficient]. *)
Definition bilinear_coefficient (angularFrequency samplerate : F) : F :=
  fdiv angularFrequency
       (tanf (fdiv (fmul (f_lit 0.5) angularFrequency) samplerate)).

(** [SpectralTilt::compute_bilinear_element]; it reads [enNorm] and
    [nSampleRate] of the object. *)
Definition compute_bilinear_element (norm : stlt_norm_t) (rate : N)
  (negZero negPole : F) : bilinear_spec_t F :=
  let spec_b0 := negZero in
  let spec_b1 := f_lit 1 in
  let spec_a0 := negPole in
  let spec_a1 := f_lit 1 in
  let fs := f_of_size rate in
  let g_a :=
    match norm with
    | STLT_NORM_NONE => f_lit 1
    | STLT_NORM_AT_NYQUIST =>
        let pi_fs_sq := fmul (fmul (fmul f_pi f_pi) fs) fs in
        let den := fadd (fmul (fmul pi_fs_sq spec_a1) spec_a1)
                        (fmul spec_a0 spec_a0) in
        let re := fdiv (fadd (fmul (fmul pi_fs_sq spec_b1) spec_a1)
                             (fmul spec_a0 spec_b0)) den in
        let im := fdiv (fmul (fmul f_pi fs)
                             (fsub (fmul spec_b1 spec_a0)
                                   (fmul spec_a1 spec_b0))) den in
        fdiv (f_lit 1) (sqrtf (fadd (fmul re re) (fmul im im)))
    | _ => fdiv spec_a0 spec_b0
    end in
  {| b0 := fmul spec_b0 g_a; b1 := fmul spec_b1 g_a;
     a0 := spec_a0; a1 := spec_a1 |}.

(** The analog biquad of two first-order sections (lines 239-245). *)
Definition combine_sections (spec_now spec_nxt : bilinear_spec_t F)
  : f_cascade_t F :=
  {| t0 := fmul (b0 spec_now) (b0 spec_nxt);
     t1 := fadd (fmul (b0 spec_now) (b1 spec_nxt))
                (fmul (b1 spec_now) (b0 spec_nxt));
     t2 := fmul (b1 spec_now) (b1 spec_nxt);
     bc0 := fmul (a0 spec_now) (a0 spec_nxt);
     bc1 := fadd (fmul (a0 spec_now) (a1 spec_nxt))
                 (fmul (a1 spec_now) (a0 spec_nxt));
     bc2 := fmul (a1 spec_now) (a1 spec_nxt) |}.

(** The [for] loop of [update_settings] (lines 222-251): [todo] counts the
    iterations left, [n] is the loop variable.  The result is the chain and
    whether the loop ran to its end ([true]) or was left by the [return]
    at the null pointer ([false]). *)
Fixpoint assemble_chain (norm : stlt_norm_t) (rate : N) (r c_fn : F)
  (todo : nat) (n : N) (negZero negPole : F) (fb : FilterBank F)
  : bool * FilterBank F :=
  match todo with
  | O => (true, fb)
  | S todo' =>
      if negb (n mod 2 =? 0)%N
      then assemble_chain norm rate r c_fn todo' (n + 1)%N negZero negPole fb
      else
        let spec_now := compute_bilinear_element norm rate negZero negPole in
        let negZero := fmul negZero r in
        let negPole := fmul negPole r in
        let spec_nxt := compute_bilinear_element norm rate negZero negPole in
        let negZero := fmul negZero r in
        let negPole := fmul negPole r in
        match fb_add_chain fb with
        | None => (false, fb)
        | Some digitalbq =>
            let analogbq := combine_sections spec_now spec_nxt in
            assemble_chain norm rate r c_fn todo' (n + 1)%N negZero negPole
              (fb_store fb digitalbq (bilinear_transform_x1 analogbq c_fn))
        end
  end.

(** The ways out of [update_settings]. *)
Inductive sync_exit : Type :=
| ExitNotPending      (* line 133 *)
| ExitBypass          (* line 205 *)
| ExitNoSlot          (* line 237 *)
| ExitRebuilt.        (* line 254 *)

(** Lines 135-137. *)
Definition effective_order (order : N) : N :=
  let order := if (order mod 2 =? 0)%N then order else size_wrap (order + 1) in
  N.min order MAX_ORDER.

(** Lines 140-184. *)
Definition slope_nep_nep (unit : stlt_slope_unit_t) (val : F) : F :=
  match unit with
  | STLT_SLOPE_UNIT_DB_PER_OCTAVE =>
      fmul val (f_lit 0.16609640419483184814453125)
  | STLT_SLOPE_UNIT_DB_PER_DECADE => fmul val (f_lit 0.05)
  | _ => val
  end.

(** Lines 186-187. *)
Definition resolve_norm (norm : stlt_norm_t) (slope : F) : stlt_norm_t :=
  if norm_eqb norm STLT_NORM_AUTO
  then (if fle slope (f_lit 0) then STLT_NORM_AT_DC else STLT_NORM_AT_NYQUIST)
  else norm.

(** Lines 189-199. *)
Definition validate_band (rate : N) (lower upper : F) : F * F :=
  let lower :=
    if fge lower (fmul (f_lit 0.5) (f_of_size rate))
    then DFL_LOWER_FREQUENCY else lower in
  let upper :=
    if fge upper (fmul (f_lit 0.5) (f_of_size rate))
    then DFL_UPPER_FREQUENCY else upper in
  if fge lower upper
  then (DFL_LOWER_FREQUENCY, DFL_UPPER_FREQUENCY)
  else (lower, upper).

(** [SpectralTilt::update_settings], with the way it was left. *)
Definition update_settings_exit (s : SpectralTilt F)
  : sync_exit * SpectralTilt F :=
  if negb (bSync s) then (ExitNotPending, s) else
  let order := effective_order (nOrder s) in
  let slope := slope_nep_nep (enSlopeUnit s) (fSlopeVal s) in
  let norm := resolve_norm (enNorm s) slope in
  let '(lower, upper) :=
    validate_band (nSampleRate s) (fLowerFrequency s) (fUpperFrequency s) in
  if slope_unit_eqb (enSlopeUnit s) STLT_SLOPE_UNIT_NONE
     || feq slope (f_lit 0)
  then
    (ExitBypass,
     {| nOrder := order; enSlopeUnit := enSlopeUnit s; enNorm := norm;
        fSlopeVal := fSlopeVal s; fSlopeNepNep := slope;
        fLowerFrequency := lower; fUpperFrequency := upper;
        nSampleRate := nSampleRate s; sFilter := sFilter s;
        bBypass := true; bSync := true |})
  else
    let l_angf := fmul (fmul (f_lit 2) f_pi) lower in
    let u_angf := fmul (fmul (f_lit 2) f_pi) upper in
    let r := powf (fdiv u_angf l_angf)
                  (fdiv (f_lit 1) (f_of_size (size_pred order))) in
    let c_fn := bilinear_coefficient (f_lit 1) (f_of_size (nSampleRate s)) in
    let negZero := fmul l_angf (powf r (fneg slope)) in
    let negPole := l_angf in
    match assemble_chain norm (nSampleRate s) r c_fn (N.to_nat order) 0
                         negZero negPole (fb_begin (sFilter s)) with
    | (false, fb) =>
        (ExitNoSlot,
         {| nOrder := order; enSlopeUnit := enSlopeUnit s; enNorm := norm;
            fSlopeVal := fSlopeVal s; fSlopeNepNep := slope;
            fLowerFrequency := lower; fUpperFrequency := upper;
            nSampleRate := nSampleRate s; sFilter := fb;
            bBypass := false; bSync := bSync s |})
    | (true, fb) =>
        (ExitRebuilt,
         {| nOrder := order; enSlopeUnit := enSlopeUnit s; enNorm := norm;
            fSlopeVal := fSlopeVal s; fSlopeNepNep := slope;
            fLowerFrequency := lower; fUpperFrequency := upper;
            nSampleRate := nSampleRate s; sFilter := fb_end true fb;
            bBypass := false; bSync := true |})
    end.

(** [SpectralTilt::update_settings]: the [synchronize()] of the spec. *)
Definition update_settings (s : SpectralTilt F) : SpectralTilt F :=
  snd (update_settings_exit s).

(** *** Streaming *)

(** The [for] loop of [process_add] (lines 275-284) and of [process_mul]
    (lines 305-314), which differ in the primitive [combine] that merges
    the block into [dst].  [vTemp] is the scratch block of the stack;
    [fuel] bounds the iterations, each of which moves [offset] forward. *)
Fixpoint process_blocks (combine : list F -> list F -> nat -> list F)
  (fuel : nat) (fb : FilterBank F) (dst src : list F)
  (count offset : nat) : FilterBank F * list F :=
  match fuel with
  | O => (fb, dst)
  | S fuel' =>
      if offset <? count then
        let to_do := Nat.min (count - offset) BUF_LIM_SIZE in
        let '(fb', vTemp) :=
          fb_process fb (repeat (f_lit 0) BUF_LIM_SIZE)
                     (skipn offset src) to_do in
        let dst' :=
          firstn offset dst ++ combine (skipn offset dst) vTemp to_do in
        process_blocks combine fuel' fb' dst' src count (offset + to_do)
      else (fb, dst)
  end.

Definition with_filter (s : SpectralTilt F) (fb : FilterBank F)
  : SpectralTilt F :=
  {| nOrder := nOrder s; enSlopeUnit := enSlopeUnit s; enNorm := enNorm s;
     fSlopeVal := fSlopeVal s; fSlopeNepNep := fSlopeNepNep s;
     fLowerFrequency := fLowerFrequency s;
     fUpperFrequency := fUpperFrequency s;
     nSampleRate := nSampleRate s; sFilter := fb;
     bBypass := bBypass s; bSync := bSync s |}.

(** [SpectralTilt::process_add]; [src = None] is the null pointer.  The
    result is the object and the contents of [dst] after the call. *)
Definition process_add (s : SpectralTilt F) (dst : list F)
  (src : option (list F)) (count : nat) : SpectralTilt F * list F :=
  match src with
  | None => (s, dst)
  | Some src =>
      if bBypass s then (s, dsp_add2 dst src count)
      else
        let '(fb, dst') :=
          process_blocks dsp_add2 count (sFilter s) dst src count 0 in
        (with_filter s fb, dst')
  end.

(** [SpectralTilt::process_mul]. *)
Definition process_mul (s : SpectralTilt F) (dst : list F)
  (src : option (list F)) (count : nat) : SpectralTilt F * list F :=
  match src with
  | None => (s, dsp_fill_zero dst count)
  | Some src =>
      if bBypass s then (s, dsp_mul2 dst src count)
      else
        let '(fb, dst') :=
          process_blocks dsp_mul2 count (sFilter s) dst src count 0 in
        (with_filter s fb, dst')
  end.

(** [SpectralTilt::process_overwrite]. *)
Definition process_overwrite (s : SpectralTilt F) (dst : list F)
  (src : option (list F)) (count : nat) : SpectralTilt F * list F :=
  match src with
  | None => (s, dsp_fill_zero dst count)
  | Some src =>
      if bBypass s then (s, dsp_copy dst src count)
      else
        let '(fb, dst') := fb_process (sFilter s) dst src count in
        (with_filter s fb, dst')
  end.

(** A caller that splits one buffer into consecutive sub-calls of the
    sizes [sizes], each on the part of [dst] and [src] that starts at
    [offset]. *)
Fixpoint overwrite_in_parts (s : SpectralTilt F) (dst src : list F)
  (sizes : list nat) (offset : nat) : SpectralTilt F * list F :=
  match sizes with
  | [] => (s, dst)
  | n :: sizes' =>
      let '(s', part) :=
        process_overwrite s (skipn offset dst) (Some (skipn offset src)) n in
      overwrite_in_parts s' (firstn offset dst ++ part) src sizes'
                         (offset + n)
  end.

(** Modelled from the spec: the setters of the header, which is not at
    hand.  Each stores its argument and marks the settings as pending. *)
Definition set_sample_rate (sr : N) (s : SpectralTilt F) : SpectralTilt F :=
  {| nOrder := nOrder s; enSlopeUnit := enSlopeUnit s; enNorm := enNorm s;
     fSlopeVal := fSlopeVal s; fSlopeNepNep := fSlopeNepNep s;
     fLowerFrequency := fLowerFrequency s;
     fUpperFrequency := fUpperFrequency s;
     nSampleRate := sr; sFilter := sFilter s;
     bBypass := bBypass s; bSync := true |}.

Definition set_order (order : N) (s : SpectralTilt F) : SpectralTilt F :=
  {| nOrder := order; enSlopeUnit := enSlopeUnit s; enNorm := enNorm s;
     fSlopeVal := fSlopeVal s; fSlopeNepNep := fSlopeNepNep s;
     fLowerFrequency := fLowerFrequency s;
     fUpperFrequency := fUpperFrequency s;
     nSampleRate := nSampleRate s; sFilter := sFilter s;
     bBypass := bBypass s; bSync := true |}.

Definition set_slope (val : F) (unit : stlt_slope_unit_t)
  (s : SpectralTilt F) : SpectralTilt F :=
  {| nOrder := nOrder s; enSlopeUnit := unit; enNorm := enNorm s;
     fSlopeVal := val; fSlopeNepNep := fSlopeNepNep s;
     fLowerFrequency := fLowerFrequency s;
     fUpperFrequency := fUpperFrequency s;
     nSampleRate := nSampleRate s; sFilter := sFilter s;
     bBypass := bBypass s; bSync := true |}.

Definition set_norm (norm : stlt_norm_t) (s : SpectralTilt F)
  : SpectralTilt F :=
  {| nOrder := nOrder s; enSlopeUnit := enSlopeUnit s; enNorm := norm;
     fSlopeVal := fSlopeVal s; fSlopeNepNep := fSlopeNepNep s;
     fLowerFrequency := fLowerFrequency s;
     fUpperFrequency := fUpperFrequency s;
     nSampleRate := nSampleRate s; sFilter := sFilter s;
     bBypass := bBypass s; bSync := true |}.

Definition set_frequency_range (lower upper : F) (s : SpectralTilt F)
  : SpectralTilt F :=
  {| nOrder := nOrder s; enSlopeUnit := enSlopeUnit s; enNorm := enNorm s;
     fSlopeVal := fSlopeVal s; fSlopeNepNep := fSlopeNepNep s;
     fLowerFrequency := lower; fUpperFrequency := upper;
     nSampleRate := nSampleRate s; sFilter := sFilter s;
     bBypass := bBypass s; bSync := true |}.

(** *** Auxiliary notions of the proofs *)

(** The even values of the loop variable among [n], [n+1], ...: the
    iterations that reach [add_chain]. *)
Fixpoint even_steps (n : N) (todo : nat) : nat :=
  match todo with
  | O => O
  | S todo' =>
      (if (n mod 2 =? 0)%N then 1 else 0) + even_steps (n + 1) todo'
  end.

(** A chain with other contents of its delay lines. *)
Definition with_delay (fb : FilterBank F) (d : list (F * F))
  : FilterBank F :=
  {| nMaxItems := nMaxItems fb; vChains := vChains fb; vDelay := d |}.

(** The statements on buffers: [dst'] is [dst] with its first [count]
    samples combined with those of [src] by [op], and with its first
    [count] samples set to zero. *)
Definition elementwise (op : F -> F -> F) (dst src : list F) (count : nat)
  (dst' : list F) : Prop :=
  length dst' = length dst
  /\ (forall i x y, i < count ->
        nth_error dst i = Some x -> nth_error src i = Some y ->
        nth_error dst' i = Some (op x y))
  /\ (forall i, count <= i -> nth_error dst' i = nth_error dst i).

Definition zero_filled (dst : list F) (count : nat) (dst' : list F)
  : Prop :=
  length dst' = length dst
  /\ (forall i, i < count -> nth_error dst' i = Some (f_lit 0))
  /\ (forall i, count <= i -> nth_error dst' i = nth_error dst i).

(** The ladder of zeros and poles of lines 227-233: the value [x] after
    [k] multiplications by the spacing ratio [r]. *)
Fixpoint ladder_step (r : F) (k : nat) (x : F) : F :=
  match k with
  | O => x
  | S k' => fmul (ladder_step r k' x) r
  end.

(** The digital section of the pair [k] of the ladder that starts at
    [negZero] and [negPole]: the elements of the steps [2k] and [2k+1],
    combined and transformed (lines 227-247). *)
Definition section_at (norm : stlt_norm_t) (rate : N) (r c_fn : F)
  (negZero negPole : F) (k : nat) : biquad_x1_t F :=
  bilinear_transform_x1
    (combine_sections
       (compute_bilinear_element norm rate
          (ladder_step r (2 * k) negZero) (ladder_step r (2 * k) negPole))
       (compute_bilinear_element norm rate
          (ladder_step r (2 * k + 1) negZero)
          (ladder_step r (2 * k + 1) negPole)))
    c_fn.

(** The quantities of lines 210-217, read from the fields of an object:
    the angular band edges, the spacing ratio, the first zero and the
    prewarp coefficient. *)
Definition ladder_pole (s : SpectralTilt F) : F :=
  fmul (fmul (f_lit 2) f_pi) (fLowerFrequency s).

Definition ladder_top (s : SpectralTilt F) : F :=
  fmul (fmul (f_lit 2) f_pi) (fUpperFrequency s).

Definition ladder_ratio (s : SpectralTilt F) : F :=
  powf (fdiv (ladder_top s) (ladder_pole s))
       (fdiv (f_lit 1) (f_of_size (size_pred (nOrder s)))).

Definition ladder_zero (s : SpectralTilt F) : F :=
  fmul (ladder_pole s) (powf (ladder_ratio s) (fneg (fSlopeNepNep s))).

Definition prewarp (s : SpectralTilt F) : F :=
  bilinear_coefficient (f_lit 1) (f_of_size (nSampleRate s)).

(** Everything of an object but the delay lines of its chain. *)
Definition same_but_delay (s s' : SpectralTilt F) : Prop :=
  exists d : list (F * F), s' = with_filter s (with_delay (sFilter s) d).

(** [dst'] has the length of [dst] and its samples from [count] on. *)
Definition kept_beyond (dst : list F) (count : nat) (dst' : list F) : Prop :=
  length dst' = length dst
  /\ (forall i, count <= i -> nth_error dst' i = nth_error dst i).

(** The objects a caller can come to hold: [construct], then setters,
    [update_settings] and the streaming calls in any order. *)
Inductive reachable : SpectralTilt F -> Prop :=
| reach_construct : reachable construct
| reach_set_sample_rate sr s :
    reachable s -> reachable (set_sample_rate sr s)
| reach_set_order order s :
    reachable s -> reachable (set_order order s)
| reach_set_slope val unit s :
    reachable s -> reachable (set_slope val unit s)
| reach_set_norm norm s :
    reachable s -> reachable (set_norm norm s)
| reach_set_frequency_range lower upper s :
    reachable s -> reachable (set_frequency_range lower upper s)
| reach_update_settings s :
    reachable s -> reachable (update_settings s)
| reach_process_add s dst src count :
    reachable s -> reachable (fst (process_add s dst src count))
| reach_process_mul s dst src count :
    reachable s -> reachable (fst (process_mul s dst src count))
| reach_process_overwrite s dst src count :
    reachable s -> reachable (fst (process_overwrite s dst src count)).

End Model.

(** ** Exact real arithmetic *)

Open Scope R_scope.

Lemma R_dfl_band_ordered :
  (if Rge_dec (Q2R 0.1) (Q2R 20000) then true else false) = false.
Proof.
  destruct (Rge_dec (Q2R 0.1) (Q2R 20000)) as [H | H]; [| reflexivity].
  exfalso; revert H; unfold Q2R; simpl; lra.
Qed.

(** The interface at the real numbers: literals are their rational values,
    [M_PI] is pi, [powf] is the real power of a positive base. *)
#[export] Instance R_FloatOps : FloatOps R := {
  f_lit := Q2R;
  f_of_size := fun n => IZR (Z.of_N n);
  f_pi := PI;
  fadd := Rplus;
  fsub := Rminus;
  fmul := Rmult;
  fdiv := Rdiv;
  fneg := Ropp;
  fle := fun x y => if Rle_dec x y then true else false;
  fge := fun x y => if Rge_dec x y then true else false;
  feq := fun x y => if Req_dec_T x y then true else false;
  sqrtf := sqrt;
  tanf := tan;
  powf := Rpower;
  dfl_band_ordered := R_dfl_band_ordered
}.

(** The bilinear substitution s = kf (1 - z^-1) / (1 + z^-1) on one analog
    biquad, normalised by the denominator's leading coefficient; the two
    denominator coefficients are stored negated. *)
Definition R_bilinear_transform_x1 (bc : f_cascade_t R) (kf : R)
  : biquad_x1_t R :=
  let T0 := t0 bc in
  let T1 := t1 bc * kf in
  let T2 := t2 bc * kf * kf in
  let B0 := bc0 bc in
  let B1 := bc1 bc * kf in
  let B2 := bc2 bc * kf * kf in
  let N := 1 / (B0 + B1 + B2) in
  {| bq_b0 := (T0 + T1 + T2) * N;
     bq_b1 := 2 * (T0 - T2) * N;
     bq_b2 := (T0 - T1 + T2) * N;
     bq_a1 := 2 * (B2 - B0) * N;
     bq_a2 := (B1 - B2 - B0) * N |}.

#[export] Instance R_DspLib : DspLib R := {
  bilinear_transform_x1 := R_bilinear_transform_x1
}.

(** The frequency response of a first-order section at the angular
    frequency [w]: H(jw) = (b0 + j b1 w) / (a0 + j a1 w), real and imaginary
    part, and its magnitude. *)
Definition response_re (h : bilinear_spec_t R) (w : R) : R :=
  (b0 h * a0 h + (b1 h * w) * (a1 h * w))
  / (a0 h * a0 h + (a1 h * w) * (a1 h * w)).

Definition response_im (h : bilinear_spec_t R) (w : R) : R :=
  ((b1 h * w) * a0 h - b0 h * (a1 h * w))
  / (a0 h * a0 h + (a1 h * w) * (a1 h * w)).

Definition magnitude (h : bilinear_spec_t R) (w : R) : R :=
  sqrt (response_re h w * response_re h w + response_im h w * response_im h w).

(** The section before its numerator is scaled (lines 92-96). *)
Definition raw_section (negZero negPole : R) : bilinear_spec_t R :=
  {| b0 := negZero; b1 := 1; a0 := negPole; a1 := 1 |}.

(** *** Objects and buffers of the concrete runs *)

(** A default-constructed object at 44.1 kHz. *)
Definition tilt_44100 : SpectralTilt R := set_sample_rate 44100 construct.

(** An object at 48 kHz with the band 15 kHz - 20 kHz: the lower edge is
    above a quarter of the sample rate and below half of it. *)
Definition band_example : SpectralTilt R :=
  set_frequency_range 15000 20000 (set_sample_rate 48000 construct).

(** Order 3 requested at 44.1 kHz. *)
Definition order_three : SpectralTilt R := set_order 3 tilt_44100.

(** The slope unit [None] with a slope value of 6. *)
Definition unit_none : SpectralTilt R :=
  set_slope 6 STLT_SLOPE_UNIT_NONE tilt_44100.

(** A slope of -3 dB per octave with the mode [Auto]. *)
Definition falling_slope : SpectralTilt R :=
  set_slope (-3) STLT_SLOPE_UNIT_DB_PER_OCTAVE tilt_44100.

(** Six hundred samples, and three sub-calls that cover them. *)
Definition ramp : list R := map INR (seq 0 600).
Definition three_calls : list nat := [256; 256; 88]%nat.

(** Order 101 requested at 44.1 kHz. *)
Definition order_101 : SpectralTilt R := set_order 101 tilt_44100.

(** A slope of 0 dB per octave. *)
Definition zero_slope : SpectralTilt R :=
  set_slope 0 STLT_SLOPE_UNIT_DB_PER_OCTAVE tilt_44100.

(** Order 0 requested at 44.1 kHz. *)
Definition order_0 : SpectralTilt R := set_order 0 tilt_44100.

(** A default-constructed object at 8 kHz: the default upper edge, 20 kHz,
    is above its Nyquist frequency. *)
Definition slow_rate : SpectralTilt R := set_sample_rate 8000 construct.

Close Scope R_scope.

(** ** Properties of [update_settings] *)

Section SyncProperties.

Context {F : Type} {FO : FloatOps F} {DL : DspLib F}.

Implicit Type s : SpectralTilt F.

(** What a pending [update_settings] leaves in every field but the chain,
    on each of its ways out. *)
Lemma update_settings_pending s :
  bSync s = true ->
  let slope := slope_nep_nep (enSlopeUnit s) (fSlopeVal s) in
  let s' := update_settings s in
  nOrder s' = effective_order (nOrder s)
  /\ enSlopeUnit s' = enSlopeUnit s
  /\ fSlopeVal s' = fSlopeVal s
  /\ fSlopeNepNep s' = slope
  /\ enNorm s' = resolve_norm (enNorm s) slope
  /\ (fLowerFrequency s', fUpperFrequency s')
     = validate_band (nSampleRate s) (fLowerFrequency s) (fUpperFrequency s)
  /\ nSampleRate s' = nSampleRate s
  /\ bBypass s'
     = (slope_unit_eqb (enSlopeUnit s) STLT_SLOPE_UNIT_NONE
        || feq slope (f_lit 0))
  /\ bSync s' = true.
Proof.
  intros Hsync; cbv zeta.
  unfold update_settings, update_settings_exit.
  rewrite Hsync; cbn [negb].
  destruct (validate_band _ _ _) as [lower upper].
  destruct (slope_unit_eqb _ _ || feq _ _).
  - cbn; repeat split; reflexivity.
  - destruct (assemble_chain _ _ _ _ _ _ _ _ _) as [[|] fb];
      cbn; repeat split; try reflexivity; assumption.
Qed.

Lemma update_settings_not_pending s :
  bSync s = false -> update_settings s = s.
Proof.
  intros H; unfold update_settings, update_settings_exit.
  rewrite H; reflexivity.
Qed.

(** *** The effective order *)

Lemma mod2_cases (n : N) : (n mod 2 = 0 \/ n mod 2 = 1)%N.
Proof.
  pose proof (N.mod_upper_bound n 2) as H.
  generalize dependent (n mod 2)%N; intros; lia.
Qed.

Lemma size_wrap_mod2 (m : N) : (size_wrap m mod 2 = m mod 2)%N.
Proof.
  unfold size_wrap, SIZE_MODULUS.
  change 18446744073709551616%N with (2 * 9223372036854775808)%N.
  rewrite N.Div0.mod_mul_r, (N.mul_comm 2), N.Div0.mod_add.
  apply N.Div0.mod_mod.
Qed.

Lemma succ_odd_mod2 (n : N) : (n mod 2 <> 0 -> (n + 1) mod 2 = 0)%N.
Proof.
  intros E. destruct (mod2_cases n) as [H | H]; [contradiction |].
  rewrite N.Div0.add_mod, H; reflexivity.
Qed.

Lemma effective_order_mod2 (order : N) :
  (effective_order order mod 2 = 0)%N.
Proof.
  unfold effective_order, MAX_ORDER.
  destruct (N.eqb_spec (order mod 2) 0) as [E | E].
  - destruct (N.min_spec order 100) as [[_ ->] | [_ ->]];
      [assumption | reflexivity].
  - destruct (N.min_spec (size_wrap (order + 1)) 100) as [[_ ->] | [_ ->]];
      [| reflexivity].
    rewrite size_wrap_mod2. apply succ_odd_mod2, E.
Qed.

Lemma effective_order_le (order : N) :
  (effective_order order <= MAX_ORDER)%N.
Proof. unfold effective_order; apply N.le_min_r. Qed.

Lemma effective_order_idem (order : N) :
  effective_order (effective_order order) = effective_order order.
Proof.
  pose proof (effective_order_mod2 order) as E.
  pose proof (effective_order_le order) as L.
  unfold effective_order at 1.
  rewrite E; cbn [N.eqb]. apply N.min_l, L.
Qed.

(** An odd request below the cap is rounded up by one; an even one at
    most the cap is kept. *)
Lemma effective_order_odd (order : N) :
  (order mod 2 = 1 -> order < MAX_ORDER ->
   effective_order order = order + 1)%N.
Proof.
  unfold effective_order, MAX_ORDER, size_wrap, SIZE_MODULUS.
  intros E L. rewrite E; cbn [N.eqb].
  rewrite N.mod_small by lia. apply N.min_l; lia.
Qed.

Lemma effective_order_keeps_even (order : N) :
  (order mod 2 = 0 -> order <= MAX_ORDER ->
   effective_order order = order)%N.
Proof.
  unfold effective_order; intros E L.
  rewrite E; cbn [N.eqb]. apply N.min_l, L.
Qed.

(** *** The assembly loop *)

Lemma even_steps_half (todo : nat) : forall n : N,
  even_steps n todo
  = if (n mod 2 =? 0)%N then Nat.div2 (S todo) else Nat.div2 todo.
Proof.
  induction todo as [| todo IH]; intros n.
  - cbn. destruct (n mod 2 =? 0)%N; reflexivity.
  - cbn [even_steps]. rewrite IH.
    destruct (N.eqb_spec (n mod 2) 0) as [E | E].
    + assert (E1 : ((n + 1) mod 2 =? 0)%N = false).
      { apply N.eqb_neq. rewrite N.Div0.add_mod, E. discriminate. }
      rewrite E1. reflexivity.
    + rewrite (succ_odd_mod2 n E). cbn [N.eqb]. reflexivity.
Qed.

Lemma even_steps_order (order : N) :
  (order mod 2 = 0)%N ->
  even_steps 0 (N.to_nat order) = N.to_nat (order / 2).
Proof.
  intros E. rewrite even_steps_half. cbn [N.modulo N.eqb].
  change ((0 mod 2 =? 0)%N) with true. cbv iota.
  pose proof (N.div_mod order 2 ltac:(discriminate)) as D.
  rewrite E, N.add_0_r in D.
  rewrite D at 1. rewrite N2Nat.inj_mul.
  change (N.to_nat 2) with 2%nat.
  generalize (N.to_nat (order / 2)); intros k.
  induction k as [| k IHk]; [reflexivity |].
  replace (S (2 * S k)) with (S (S (S (2 * k)))) by lia.
  cbn [Nat.div2]. f_equal. exact IHk.
Qed.

(** With room for every section the loop runs to its end, appends one
    section for each even value of its variable, and touches neither the
    capacity nor the delay lines. *)
Lemma assemble_chain_complete norm rate (r c_fn : F) (todo : nat) :
  forall (n : N) (negZero negPole : F) (fb : FilterBank F),
  length (vChains fb) + even_steps n todo <= nMaxItems fb ->
  exists fb',
    assemble_chain norm rate r c_fn todo n negZero negPole fb = (true, fb')
    /\ length (vChains fb') = length (vChains fb) + even_steps n todo
    /\ nMaxItems fb' = nMaxItems fb
    /\ vDelay fb' = vDelay fb.
Proof.
  induction todo as [| todo IH]; intros n negZero negPole fb Hroom.
  - exists fb. cbn. repeat split; lia.
  - cbn [assemble_chain even_steps] in *.
    destruct (n mod 2 =? 0)%N; cbn [negb].
    + unfold fb_add_chain.
      destruct (Nat.ltb_spec (length (vChains fb)) (nMaxItems fb)) as [L | L];
        [| lia].
      match goal with
      | |- context [fb_store fb ?k ?bq] => set (fb1 := fb_store fb k bq)
      end.
      assert (H1 : length (vChains fb1) = S (length (vChains fb))).
      { subst fb1; cbn. rewrite firstn_all, length_app; cbn; lia. }
      destruct (IH (n + 1)%N (fmul (fmul negZero r) r)
                   (fmul (fmul negPole r) r) fb1) as (fb' & E & Hl & Hm & Hd).
      { rewrite H1. subst fb1; cbn [nMaxItems fb_store]. lia. }
      exists fb'. rewrite E, Hl, Hm, Hd, H1. subst fb1; cbn.
      repeat split; lia.
    + destruct (IH (n + 1)%N negZero negPole fb) as (fb' & E & Hl & Hm & Hd);
        [lia |].
      exists fb'. rewrite E, Hl, Hm, Hd. repeat split; lia.
Qed.

(** The loop never changes the capacity or the delay lines, and what it
    builds does not depend on the delay lines it was started with. *)
Lemma assemble_chain_frame norm rate (r c_fn : F) (todo : nat) :
  forall (n : N) (negZero negPole : F) (fb : FilterBank F),
  let res := assemble_chain norm rate r c_fn todo n negZero negPole fb in
  nMaxItems (snd res) = nMaxItems fb /\ vDelay (snd res) = vDelay fb.
Proof.
  induction todo as [| todo IH]; intros n negZero negPole fb; cbv zeta.
  - cbn; split; reflexivity.
  - cbn [assemble_chain].
    destruct (n mod 2 =? 0)%N; cbn [negb].
    + destruct (fb_add_chain fb) as [slot |]; [| cbn; split; reflexivity].
      match goal with
      | |- context [assemble_chain _ _ _ _ _ _ ?z ?p ?b] =>
          destruct (IH (n + 1)%N z p b) as [Hm Hd]
      end.
      rewrite Hm, Hd; cbn; split; reflexivity.
    + apply IH.
Qed.

Lemma assemble_chain_delay norm rate (r c_fn : F) (todo : nat) :
  forall (n : N) (negZero negPole : F) (fb : FilterBank F) d,
  assemble_chain norm rate r c_fn todo n negZero negPole (with_delay fb d)
  = (fst (assemble_chain norm rate r c_fn todo n negZero negPole fb),
     with_delay
       (snd (assemble_chain norm rate r c_fn todo n negZero negPole fb)) d).
Proof.
  induction todo as [| todo IH]; intros n negZero negPole fb d.
  - reflexivity.
  - cbn [assemble_chain].
    destruct (n mod 2 =? 0)%N; cbn [negb].
    + unfold fb_add_chain; cbn [with_delay vChains nMaxItems].
      destruct (length (vChains fb) <? nMaxItems fb); [| reflexivity].
      match goal with
      | |- context [fb_store fb ?k ?bq] =>
          change (fb_store (with_delay fb d) k bq)
            with (with_delay (fb_store fb k bq) d)
      end.
      apply IH.
    + apply IH.
Qed.

(** *** The parts of [update_settings] are idempotent *)

Lemma resolve_norm_not_auto norm (slope : F) :
  resolve_norm norm slope <> STLT_NORM_AUTO.
Proof.
  unfold resolve_norm.
  destruct norm; cbn; try discriminate;
    destruct (fle slope (f_lit 0)); discriminate.
Qed.

Lemma resolve_norm_keeps norm (slope : F) :
  norm <> STLT_NORM_AUTO -> resolve_norm norm slope = norm.
Proof.
  unfold resolve_norm; destruct norm; cbn; congruence.
Qed.

Lemma resolve_norm_idem norm (slope slope' : F) :
  resolve_norm (resolve_norm norm slope) slope' = resolve_norm norm slope.
Proof. apply resolve_norm_keeps, resolve_norm_not_auto. Qed.

Lemma validate_band_idem rate (lower upper : F) :
  let '(lower', upper') := validate_band rate lower upper in
  validate_band rate lower' upper' = (lower', upper').
Proof.
  unfold validate_band.
  set (nyq := fmul (f_lit 0.5) (f_of_size rate)).
  assert (D : fge DFL_LOWER_FREQUENCY DFL_UPPER_FREQUENCY = false)
    by apply dfl_band_ordered.
  destruct (fge lower nyq) eqn:El; destruct (fge upper nyq) eqn:Eu.
  - rewrite D. destruct (fge DFL_LOWER_FREQUENCY nyq);
      destruct (fge DFL_UPPER_FREQUENCY nyq); rewrite D; reflexivity.
  - destruct (fge DFL_LOWER_FREQUENCY upper) eqn:E1.
    + destruct (fge DFL_LOWER_FREQUENCY nyq);
        destruct (fge DFL_UPPER_FREQUENCY nyq); rewrite D; reflexivity.
    + rewrite Eu. destruct (fge DFL_LOWER_FREQUENCY nyq);
        rewrite E1; reflexivity.
  - destruct (fge lower DFL_UPPER_FREQUENCY) eqn:E1.
    + destruct (fge DFL_LOWER_FREQUENCY nyq);
        destruct (fge DFL_UPPER_FREQUENCY nyq); rewrite D; reflexivity.
    + rewrite El. destruct (fge DFL_UPPER_FREQUENCY nyq);
        rewrite E1; reflexivity.
  - destruct (fge lower upper) eqn:E1.
    + destruct (fge DFL_LOWER_FREQUENCY nyq);
        destruct (fge DFL_UPPER_FREQUENCY nyq); rewrite D; reflexivity.
    + rewrite El, Eu, E1; reflexivity.
Qed.

(** *** Idempotence *)

(** C9. [update_settings] is idempotent: on every object, a second call
    right after the first leaves every field, the configuration, the
    derived state and the assembled chain with its coefficients, as the
    first call left it. *)
Theorem update_settings_idempotent s :
  update_settings (update_settings s) = update_settings s.
Proof.
  destruct (bSync s) eqn:Hsync;
    [| rewrite !(update_settings_not_pending _ Hsync); reflexivity].
  destruct s as [order unit norm val nep lower upper rate fb byp sync].
  cbn in Hsync; subst sync.
  unfold update_settings at 2 3, update_settings_exit.
  cbn [bSync negb nOrder enSlopeUnit enNorm fSlopeVal fSlopeNepNep
       fLowerFrequency fUpperFrequency nSampleRate sFilter].
  pose proof (validate_band_idem rate lower upper) as Hb.
  destruct (validate_band rate lower upper) as [lower' upper'].
  set (slope := slope_nep_nep unit val) in *.
  destruct (slope_unit_eqb unit STLT_SLOPE_UNIT_NONE || feq slope (f_lit 0))
    eqn:Hc.
  - cbn [snd]. unfold update_settings, update_settings_exit.
    cbn [bSync negb nOrder enSlopeUnit enNorm fSlopeVal fSlopeNepNep
         fLowerFrequency fUpperFrequency nSampleRate sFilter].
    fold slope.
    rewrite effective_order_idem, resolve_norm_idem, Hb, Hc. reflexivity.
  - match goal with
    | |- context [assemble_chain ?a ?b ?c ?d ?e ?f ?g ?h ?i] =>
        pose proof (assemble_chain_frame a b c d e f g h i) as Hf;
        pose proof (fun dl => assemble_chain_delay a b c d e f g h i dl) as Hd;
        destruct (assemble_chain a b c d e f g h i) as [[|] fb1] eqn:Ha
    end; cbv zeta in Hf; cbn [fst snd fb_begin nMaxItems vDelay] in Hf, Hd;
      destruct Hf as [Hm Hv]; cbn [snd];
      unfold update_settings, update_settings_exit;
      cbn [bSync negb nOrder enSlopeUnit enNorm fSlopeVal fSlopeNepNep
           fLowerFrequency fUpperFrequency nSampleRate sFilter];
      fold slope;
      rewrite effective_order_idem, resolve_norm_idem, Hb, Hc.
    + replace (fb_begin (fb_end true fb1))
        with (with_delay (fb_begin fb)
                (repeat (f_lit 0, f_lit 0) (length (vChains fb1))))
        by (unfold fb_begin, fb_end, with_delay; cbn; rewrite Hm; reflexivity).
      rewrite Hd. cbn [snd]. reflexivity.
    + replace (fb_begin fb1) with (fb_begin fb)
        by (unfold fb_begin; rewrite Hm, Hv; reflexivity).
      rewrite Ha. cbn [snd]. reflexivity.
Qed.

(** *** What a rebuild leaves in the chain *)

Lemma update_settings_capacity s :
  nMaxItems (sFilter (update_settings s)) = nMaxItems (sFilter s).
Proof.
  unfold update_settings, update_settings_exit.
  destruct (bSync s); cbn [negb]; [| reflexivity].
  destruct (validate_band _ _ _) as [lower upper].
  destruct (slope_unit_eqb _ _ || feq _ _); [reflexivity |].
  match goal with
  | |- context [assemble_chain ?a ?b ?c ?d ?e ?f ?g ?h ?i] =>
      destruct (assemble_chain_frame a b c d e f g h i) as [Hm _];
      destruct (assemble_chain a b c d e f g h i) as [[|] fb1]
  end; cbn in *; exact Hm.
Qed.

(** A pending rebuild that does not end in bypass, on a chain with room
    for half of [MAX_ORDER] sections, runs to line 254 and leaves one
    section for every two units of the effective order. *)
Lemma update_settings_rebuilds s :
  bSync s = true ->
  N.to_nat (MAX_ORDER / 2) <= nMaxItems (sFilter s) ->
  bBypass (update_settings s) = false ->
  fst (update_settings_exit s) = ExitRebuilt
  /\ length (vChains (sFilter (update_settings s)))
     = N.to_nat (effective_order (nOrder s) / 2)
  /\ vDelay (sFilter (update_settings s))
     = repeat (f_lit 0, f_lit 0)
              (N.to_nat (effective_order (nOrder s) / 2)).
Proof.
  intros Hsync Hroom.
  unfold update_settings, update_settings_exit.
  rewrite Hsync; cbn [negb].
  destruct (validate_band _ _ _) as [lower upper].
  destruct (slope_unit_eqb _ _ || feq _ _); [cbn; discriminate |].
  pose proof (effective_order_mod2 (nOrder s)) as E.
  pose proof (effective_order_le (nOrder s)) as L.
  pose proof (even_steps_order _ E) as Hs.
  assert (Hhalf : N.to_nat (effective_order (nOrder s) / 2)
                  <= N.to_nat (MAX_ORDER / 2)).
  { pose proof (N.Div0.div_le_mono _ _ 2 L) as D.
    change (MAX_ORDER / 2)%N with 50%N in *.
    generalize dependent (effective_order (nOrder s) / 2)%N; intros; lia. }
  match goal with
  | |- context [assemble_chain ?a ?b ?c ?d ?e ?f ?g ?h ?i] =>
      destruct (assemble_chain_complete a b c d e f g h i)
        as (fb' & Ha & Hl & Hm & Hd)
  end.
  { cbn [fb_begin vChains nMaxItems length]. rewrite Hs. lia. }
  rewrite Ha. cbn [fb_begin vChains length] in Hl. rewrite Hs in Hl.
  cbn. intros _. rewrite Hl. repeat split; reflexivity.
Qed.

(** *** The invariants of reachable objects *)

Lemma process_blocks_capacity combine (fuel : nat) :
  forall (fb : FilterBank F) dst src count offset,
  nMaxItems (fst (process_blocks combine fuel fb dst src count offset))
  = nMaxItems fb.
Proof.
  induction fuel as [| fuel IH]; intros fb dst src count offset;
    [reflexivity |].
  cbn [process_blocks].
  destruct (offset <? count); [| reflexivity].
  unfold fb_process.
  destruct (cascade_run _ _ _) as [ds out].
  rewrite IH. reflexivity.
Qed.

Lemma reachable_invariant s :
  reachable s ->
  bSync s = true /\ nMaxItems (sFilter s) = N.to_nat MAX_ORDER.
Proof.
  induction 1 as [| sr s _ [Hs Hc] | order s _ [Hs Hc]
                  | val unit s _ [Hs Hc] | norm s _ [Hs Hc]
                  | lower upper s _ [Hs Hc] | s _ [Hs Hc]
                  | s dst src count _ [Hs Hc] | s dst src count _ [Hs Hc]
                  | s dst src count _ [Hs Hc]];
    try (split; [reflexivity | assumption]).
  - split; reflexivity.
  - split.
    + apply (update_settings_pending s Hs).
    + rewrite update_settings_capacity; assumption.
  - unfold process_add. destruct src as [src |]; [| split; assumption].
    destruct (bBypass s); [split; assumption |].
    pose proof (process_blocks_capacity dsp_add2 count (sFilter s)
                  dst src count 0) as Hp.
    destruct (process_blocks _ _ _ _ _ _ _) as [fb dst']; cbn in *.
    split; [assumption | congruence].
  - unfold process_mul. destruct src as [src |]; [| split; assumption].
    destruct (bBypass s); [split; assumption |].
    pose proof (process_blocks_capacity dsp_mul2 count (sFilter s)
                  dst src count 0) as Hp.
    destruct (process_blocks _ _ _ _ _ _ _) as [fb dst']; cbn in *.
    split; [assumption | congruence].
  - unfold process_overwrite. destruct src as [src |]; [| split; assumption].
    destruct (bBypass s); [split; assumption |].
    unfold fb_process. destruct (cascade_run _ _ _) as [ds out]; cbn.
    split; assumption.
Qed.

Lemma no_slot_is_not_bypass s :
  fst (update_settings_exit s) = ExitNoSlot ->
  bSync s = true /\ bBypass (update_settings s) = false.
Proof.
  unfold update_settings, update_settings_exit.
  destruct (bSync s); cbn [negb]; [| discriminate].
  destruct (validate_band _ _ _) as [lower upper].
  destruct (slope_unit_eqb _ _ || feq _ _); [discriminate |].
  destruct (assemble_chain _ _ _ _ _ _ _ _ _) as [[|] fb1]; cbn;
    [discriminate | split; reflexivity].
Qed.

Lemma even_of_mod2 (n : N) : (n mod 2 = 0)%N -> N.even n = true.
Proof.
  intros E. rewrite <- N.negb_odd, <- N.bit0_odd, N.bit0_eqb, E.
  reflexivity.
Qed.

(** ** The claims on [update_settings] *)

(** C1, as amended. A pending [update_settings] checks the band against
    the Nyquist frequency, half the sample rate: a lower edge at or above
    it is reset to the default 0.1 Hz, an upper edge at or above it is
    reset to the default 20 kHz, and when the lower edge is then still
    greater than or equal to the upper edge both become the defaults;
    otherwise the two edges are left as the first two checks made them. *)
Theorem band_validated_against_nyquist s :
  bSync s = true ->
  let nyquist := fmul (f_lit 0.5) (f_of_size (nSampleRate s)) in
  let lower1 := if fge (fLowerFrequency s) nyquist
                then f_lit 0.1 else fLowerFrequency s in
  let upper1 := if fge (fUpperFrequency s) nyquist
                then f_lit 20000 else fUpperFrequency s in
  let s' := update_settings s in
  (fge (fLowerFrequency s) nyquist = true -> fLowerFrequency s' = f_lit 0.1)
  /\ (fge (fUpperFrequency s) nyquist = true ->
      fUpperFrequency s' = f_lit 20000)
  /\ (fge lower1 upper1 = true ->
      fLowerFrequency s' = f_lit 0.1 /\ fUpperFrequency s' = f_lit 20000)
  /\ (fge lower1 upper1 = false ->
      fLowerFrequency s' = lower1 /\ fUpperFrequency s' = upper1).
Proof.
  intros Hsync; cbv zeta.
  destruct (update_settings_pending s Hsync)
    as (_ & _ & _ & _ & _ & Hband & _).
  unfold validate_band, DFL_LOWER_FREQUENCY, DFL_UPPER_FREQUENCY,
    DFL_LOWER_FREQUENCY_Q, DFL_UPPER_FREQUENCY_Q in Hband.
  set (nyquist := fmul (f_lit 0.5) (f_of_size (nSampleRate s))) in *.
  destruct (fge (fLowerFrequency s) nyquist);
    destruct (fge (fUpperFrequency s) nyquist);
    match type of Hband with
    | context [if fge ?l ?u then _ else _] => destruct (fge l u)
    end;
    injection Hband as -> ->;
    repeat split; intros; try reflexivity; discriminate.
Qed.

(** C5. After a pending [update_settings] on an object whose chain has
    the capacity [construct] gave it, the effective order is even and at
    most 100; an odd request below 100 is rounded up by one, a request of
    101 gives 100 and a request of 3 gives 4; and when the object is not
    left in bypass the chain holds effective order / 2 sections. *)
Theorem effective_order_after_sync s :
  bSync s = true ->
  nMaxItems (sFilter s) = N.to_nat MAX_ORDER ->
  let s' := update_settings s in
  N.even (nOrder s') = true
  /\ (nOrder s' <= 100)%N
  /\ ((nOrder s mod 2 = 1)%N -> (nOrder s < 100)%N ->
      nOrder s' = (nOrder s + 1)%N)
  /\ (nOrder s = 101%N -> nOrder s' = 100%N)
  /\ (nOrder s = 3%N -> nOrder s' = 4%N)
  /\ (bBypass s' = false ->
      length (vChains (sFilter s')) = N.to_nat (nOrder s' / 2)).
Proof.
  intros Hsync Hcap; cbv zeta.
  destruct (update_settings_pending s Hsync) as (Ho & _).
  rewrite Ho.
  split; [apply even_of_mod2, effective_order_mod2 |].
  split; [apply effective_order_le |].
  split; [apply effective_order_odd |].
  split; [intros ->; reflexivity |].
  split; [intros ->; reflexivity |].
  intros Hb.
  apply update_settings_rebuilds; try assumption.
  rewrite Hcap. change (N.to_nat (MAX_ORDER / 2)) with 50.
  change (N.to_nat MAX_ORDER) with 100. lia.
Qed.

(** C7. A pending [update_settings] replaces a stored mode [Auto] by
    [AtDc] when the canonical slope it has just computed is less than or
    equal to 0 and by [AtNyquist] otherwise; the stored mode is then not
    [Auto], and any later [update_settings], on any object whose mode is
    a resolved one, keeps that mode. *)
Theorem auto_norm_resolved s :
  bSync s = true ->
  let s' := update_settings s in
  (enNorm s = STLT_NORM_AUTO ->
   enNorm s' = if fle (fSlopeNepNep s') (f_lit 0)
               then STLT_NORM_AT_DC else STLT_NORM_AT_NYQUIST)
  /\ enNorm s' <> STLT_NORM_AUTO
  /\ enNorm (update_settings s') = enNorm s'
  /\ (forall u : SpectralTilt F,
        enNorm u <> STLT_NORM_AUTO -> enNorm (update_settings u) = enNorm u).
Proof.
  intros Hsync; cbv zeta.
  destruct (update_settings_pending s Hsync)
    as (_ & _ & _ & Hslope & Hnorm & _).
  assert (Hkeep : forall u : SpectralTilt F,
             enNorm u <> STLT_NORM_AUTO ->
             enNorm (update_settings u) = enNorm u).
  { intros u Hu. destruct (bSync u) eqn:Eu.
    - destruct (update_settings_pending u Eu) as (_ & _ & _ & _ & -> & _).
      apply resolve_norm_keeps, Hu.
    - rewrite (update_settings_not_pending u Eu); reflexivity. }
  assert (Hres : enNorm (update_settings s) <> STLT_NORM_AUTO)
    by (rewrite Hnorm; apply resolve_norm_not_auto).
  repeat split.
  - intros Hauto. rewrite Hnorm, Hslope, Hauto. reflexivity.
  - exact Hres.
  - apply Hkeep, Hres.
  - exact Hkeep.
Qed.

(** C8. A pending [update_settings] computes the canonical slope from the
    slope value and its unit alone: the value times
    0.16609640419483184814453125 for dB per octave, times 0.05 for dB per
    decade, the value itself for Neper per Neper and for every other
    unit value; the computation has a result on every input. *)
Theorem slope_conversion s :
  bSync s = true ->
  let a := fSlopeNepNep (update_settings s) in
  (enSlopeUnit s = STLT_SLOPE_UNIT_DB_PER_OCTAVE ->
   a = fmul (fSlopeVal s) (f_lit 0.16609640419483184814453125))
  /\ (enSlopeUnit s = STLT_SLOPE_UNIT_DB_PER_DECADE ->
      a = fmul (fSlopeVal s) (f_lit 0.05))
  /\ (enSlopeUnit s = STLT_SLOPE_UNIT_NEPER_PER_NEPER -> a = fSlopeVal s)
  /\ (enSlopeUnit s <> STLT_SLOPE_UNIT_DB_PER_OCTAVE ->
      enSlopeUnit s <> STLT_SLOPE_UNIT_DB_PER_DECADE -> a = fSlopeVal s)
  /\ (forall u : SpectralTilt F,
        bSync u = true ->
        enSlopeUnit u = enSlopeUnit s -> fSlopeVal u = fSlopeVal s ->
        fSlopeNepNep (update_settings u) = a).
Proof.
  intros Hsync; cbv zeta.
  destruct (update_settings_pending s Hsync) as (_ & _ & _ & -> & _).
  repeat split.
  - intros ->; reflexivity.
  - intros ->; reflexivity.
  - intros ->; reflexivity.
  - intros H1 H2. destruct (enSlopeUnit s); try reflexivity; congruence.
  - intros u Hu Eu Ev.
    destruct (update_settings_pending u Hu) as (_ & _ & _ & -> & _).
    rewrite Eu, Ev; reflexivity.
Qed.

(** C10. On every object a caller can hold, [update_settings] is never
    left by the [return] at the null pointer of [add_chain]: the chain was
    given room for [MAX_ORDER] = 100 sections and the loop asks for
    effective order / 2 of them, at most 50.  So a call that does not end
    in bypass appends exactly effective order / 2 sections and runs to the
    end of the rebuild, through [end] to line 254. *)
Theorem add_chain_never_null s :
  reachable s ->
  let s' := update_settings s in
  fst (update_settings_exit s) <> ExitNoSlot
  /\ (nOrder s' / 2 <= 50)%N
  /\ nMaxItems (sFilter s') = 100
  /\ (bBypass s' = false ->
      fst (update_settings_exit s) = ExitRebuilt
      /\ length (vChains (sFilter s')) = N.to_nat (nOrder s' / 2)
      /\ bSync s' = true).
Proof.
  intros Hr; cbv zeta.
  destruct (reachable_invariant Hr) as [Hsync Hcap].
  destruct (update_settings_pending s Hsync)
    as (Ho & _ & _ & _ & _ & _ & _ & _ & Hs').
  assert (Hroom : N.to_nat (MAX_ORDER / 2) <= nMaxItems (sFilter s)).
  { rewrite Hcap. change (N.to_nat (MAX_ORDER / 2)) with 50.
    change (N.to_nat MAX_ORDER) with 100. lia. }
  assert (Hreb : bBypass (update_settings s) = false ->
                 fst (update_settings_exit s) = ExitRebuilt
                 /\ length (vChains (sFilter (update_settings s)))
                    = N.to_nat (nOrder (update_settings s) / 2)
                 /\ bSync (update_settings s) = true).
  { intros Hb.
    destruct (update_settings_rebuilds s Hsync Hroom Hb) as (He & Hl & _).
    rewrite Ho. repeat split; assumption. }
  split.
  - intros Hn. destruct (no_slot_is_not_bypass s Hn) as [_ Hb].
    destruct (Hreb Hb) as [He _]. congruence.
  - split.
    + rewrite Ho.
      apply (N.Div0.div_le_mono _ _ 2 (effective_order_le (nOrder s))).
    + split; [| exact Hreb].
      rewrite update_settings_capacity, Hcap. reflexivity.
Qed.

End SyncProperties.

(** ** Properties of the streaming entry points *)

Section StreamProperties.

Context {F : Type} {FO : FloatOps F} {DL : DspLib F}.

Implicit Type s : SpectralTilt F.

(** *** The buffer primitives *)

Lemma zip_with_elementwise (op : F -> F -> F) (dst : list F) :
  forall (src : list F) (count : nat),
  count <= length dst -> count <= length src ->
  elementwise op dst src count
    (zip_with op (firstn count dst) (firstn count src) ++ skipn count dst).
Proof.
  induction dst as [| x dst IH]; intros src count Hd Hs.
  - cbn in Hd. assert (count = 0) by lia; subst count.
    cbn. repeat split; intros; try reflexivity; lia.
  - destruct count as [| count].
    + cbn. repeat split; intros; try reflexivity; lia.
    + destruct src as [| y src]; [cbn in Hs; lia |].
      cbn in Hd, Hs.
      destruct (IH src count ltac:(lia) ltac:(lia)) as (Hl & Hin & Hout).
      cbn [firstn skipn zip_with app]. repeat split.
      * cbn; rewrite Hl; reflexivity.
      * intros [| i] u v Hi Hu Hv; cbn in *.
        -- congruence.
        -- apply Hin; [lia | assumption | assumption].
      * intros [| i] Hi; [lia |]. cbn. apply Hout; lia.
Qed.

Lemma copy_as_zip (dst : list F) :
  forall (src : list F) (count : nat),
  count <= length dst ->
  firstn count src
  = zip_with (fun _ y => y) (firstn count dst) (firstn count src).
Proof.
  induction dst as [| x dst IH]; intros src count Hd.
  - cbn in Hd. assert (count = 0) by lia; subst count. reflexivity.
  - destruct count as [| count]; [reflexivity |].
    destruct src as [| y src]; [reflexivity |].
    cbn in *. f_equal. apply IH; lia.
Qed.

Lemma dsp_copy_elementwise (dst src : list F) (count : nat) :
  count <= length dst -> count <= length src ->
  elementwise (fun _ y => y) dst src count (dsp_copy dst src count).
Proof.
  intros Hd Hs. unfold dsp_copy.
  rewrite (copy_as_zip dst src Hd).
  apply zip_with_elementwise; assumption.
Qed.

Lemma dsp_fill_zero_filled (dst : list F) (count : nat) :
  count <= length dst -> zero_filled dst count (dsp_fill_zero dst count).
Proof.
  intros Hd. unfold dsp_fill_zero. repeat split.
  - rewrite length_app, repeat_length, length_skipn. lia.
  - intros i Hi. rewrite nth_error_app1 by (rewrite repeat_length; lia).
    apply nth_error_repeat, Hi.
  - intros i Hi. rewrite nth_error_app2 by (rewrite repeat_length; lia).
    rewrite repeat_length, nth_error_skipn. f_equal; lia.
Qed.

(** *** Absent source and bypass *)

(** C4. With [src] absent, whatever the bypass flag and the prior contents
    of [dst]: [process_add] leaves [dst] and the object as they are,
    [process_mul] and [process_overwrite] set the first [count] samples of
    [dst] to zero and leave the object as it is. *)
Theorem absent_source_identity s (dst : list F) (count : nat) :
  count <= length dst ->
  process_add s dst None count = (s, dst)
  /\ fst (process_mul s dst None count) = s
  /\ zero_filled dst count (snd (process_mul s dst None count))
  /\ fst (process_overwrite s dst None count) = s
  /\ zero_filled dst count (snd (process_overwrite s dst None count)).
Proof.
  intros Hd. cbn [process_add process_mul process_overwrite fst snd].
  split; [reflexivity |].
  split; [reflexivity |].
  split; [apply dsp_fill_zero_filled; assumption |].
  split; [reflexivity | apply dsp_fill_zero_filled; assumption].
Qed.

(** C3. After a pending [update_settings] with the slope unit [None],
    whatever the slope value, the object is in bypass, and for buffers
    [dst] and [src] of one length and every count within them
    [process_overwrite] copies [src] into [dst] sample by sample,
    [process_add] puts [dst[i] + src[i]] and [process_mul] puts
    [dst[i] * src[i]] into [dst[i]]; none of them touches the object, so
    the chain is not run. *)
Theorem bypass_identity s :
  bSync s = true ->
  enSlopeUnit s = STLT_SLOPE_UNIT_NONE ->
  let s' := update_settings s in
  bBypass s' = true
  /\ forall (dst src : list F) (n : nat),
       length src = length dst -> n <= length dst ->
       (fst (process_overwrite s' dst (Some src) n) = s'
        /\ elementwise (fun _ y => y) dst src n
             (snd (process_overwrite s' dst (Some src) n)))
       /\ (fst (process_add s' dst (Some src) n) = s'
           /\ elementwise fadd dst src n
                (snd (process_add s' dst (Some src) n)))
       /\ (fst (process_mul s' dst (Some src) n) = s'
           /\ elementwise fmul dst src n
                (snd (process_mul s' dst (Some src) n))).
Proof.
  intros Hsync Hunit; cbv zeta.
  destruct (update_settings_pending s Hsync)
    as (_ & _ & _ & _ & _ & _ & _ & Hb & _).
  rewrite Hunit in Hb; cbn in Hb.
  split; [exact Hb |].
  intros dst src n Hlen Hn.
  unfold process_overwrite, process_add, process_mul.
  rewrite Hb; cbn [fst snd].
  split; [split; [reflexivity | apply dsp_copy_elementwise; lia] |].
  split; (split; [reflexivity | apply zip_with_elementwise; lia]).
Qed.

(** *** Streaming through the chain *)

Lemma cascade_run_app (fs : list (biquad_x1_t F)) (xs ys : list F) :
  forall ds : list (F * F),
  cascade_run fs ds (xs ++ ys)
  = (fst (cascade_run fs (fst (cascade_run fs ds xs)) ys),
     snd (cascade_run fs ds xs)
     ++ snd (cascade_run fs (fst (cascade_run fs ds xs)) ys)).
Proof.
  induction xs as [| x xs IH]; intros ds.
  - cbn. destruct (cascade_run fs ds ys); reflexivity.
  - cbn [app cascade_run].
    destruct (cascade_step fs ds x) as [ds1 y].
    rewrite IH.
    destruct (cascade_run fs ds1 xs) as [ds2 out]; cbn [fst snd].
    destruct (cascade_run fs ds2 ys) as [ds3 out']; reflexivity.
Qed.

Lemma cascade_run_length (fs : list (biquad_x1_t F)) (xs : list F) :
  forall ds : list (F * F), length (snd (cascade_run fs ds xs)) = length xs.
Proof.
  induction xs as [| x xs IH]; intros ds; [reflexivity |].
  cbn [cascade_run]. destruct (cascade_step fs ds x) as [ds1 y].
  specialize (IH ds1). destruct (cascade_run fs ds1 xs) as [ds2 out].
  cbn in *. rewrite IH; reflexivity.
Qed.

Lemma firstn_plus (A : Type) (n m : nat) : forall l : list A,
  firstn (n + m) l = firstn n l ++ firstn m (skipn n l).
Proof.
  induction n as [| n IH]; intros l; [reflexivity |].
  destruct l as [| a l]; cbn.
  - destruct m; reflexivity.
  - f_equal. apply IH.
Qed.

Lemma skipn_plus (A : Type) (n m : nat) : forall l : list A,
  skipn m (skipn n l) = skipn (n + m) l.
Proof.
  induction n as [| n IH]; intros l; [reflexivity |].
  destruct l as [| a l]; cbn.
  - destruct m; reflexivity.
  - apply IH.
Qed.

Lemma firstn_exact (A : Type) (l1 l2 : list A) (n : nat) :
  length l1 = n -> firstn n (l1 ++ l2) = l1.
Proof.
  intros <-. induction l1 as [| a l1 IH]; cbn.
  - reflexivity.
  - f_equal. exact IH.
Qed.

Lemma skipn_exact (A : Type) (l1 l2 : list A) (n : nat) :
  length l1 = n -> skipn n (l1 ++ l2) = l2.
Proof.
  intros <-. induction l1 as [| a l1 IH]; cbn; [reflexivity | exact IH].
Qed.

(** [process_overwrite] on an object that is not in bypass: the chain is
    run over the first [count] samples and keeps its delay lines. *)
Lemma process_overwrite_active s (dst src : list F) (count : nat) :
  bBypass s = false ->
  process_overwrite s dst (Some src) count
  = (with_filter s
       (with_delay (sFilter s)
          (fst (cascade_run (vChains (sFilter s)) (vDelay (sFilter s))
                            (firstn count src)))),
     snd (cascade_run (vChains (sFilter s)) (vDelay (sFilter s))
                      (firstn count src))
     ++ skipn count dst).
Proof.
  intros Hb. unfold process_overwrite, fb_process. rewrite Hb.
  destruct (cascade_run _ _ _) as [ds out]. reflexivity.
Qed.

Lemma with_filter_same s : with_filter s (sFilter s) = s.
Proof. destruct s; reflexivity. Qed.

Lemma with_delay_same (fb : FilterBank F) : with_delay fb (vDelay fb) = fb.
Proof. destruct fb; reflexivity. Qed.

Lemma overwrite_in_parts_joined (sizes : list nat) :
  forall s (dst src : list F) (offset : nat),
  bBypass s = false ->
  offset + list_sum sizes <= length src ->
  offset + list_sum sizes <= length dst ->
  overwrite_in_parts s dst src sizes offset
  = (fst (process_overwrite s (skipn offset dst) (Some (skipn offset src))
                            (list_sum sizes)),
     firstn offset dst
     ++ snd (process_overwrite s (skipn offset dst)
                               (Some (skipn offset src)) (list_sum sizes))).
Proof.
  induction sizes as [| n sizes IH]; intros s dst src offset Hb Hs Hd.
  - change (list_sum (@nil nat)) with 0 in *.
    cbn [overwrite_in_parts].
    rewrite process_overwrite_active by assumption.
    cbn [firstn cascade_run fst snd skipn app].
    rewrite with_delay_same, with_filter_same, firstn_skipn. reflexivity.
  - change (list_sum (n :: sizes)) with (n + list_sum sizes) in *.
    cbn [overwrite_in_parts].
    rewrite !process_overwrite_active by assumption.
    set (fs := vChains (sFilter s)).
    set (ds := vDelay (sFilter s)).
    set (srcO := skipn offset src).
    set (dstO := skipn offset dst).
    rewrite firstn_plus, cascade_run_app.
    set (r1 := cascade_run fs ds (firstn n srcO)).
    assert (Hlen1 : length (snd r1) = n).
    { subst r1. rewrite cascade_run_length, length_firstn.
      subst srcO. rewrite length_skipn. lia. }
    assert (Hoff : length (firstn offset dst) = offset)
      by (rewrite length_firstn; lia).
    assert (Hpre : length (firstn offset dst ++ snd r1) = offset + n)
      by (rewrite length_app; lia).
    set (s1 := with_filter s (with_delay (sFilter s) (fst r1))).
    set (dst1 := firstn offset dst ++ snd r1 ++ skipn n dstO).
    assert (Hd1 : length dst1 = length dst).
    { subst dst1 dstO. rewrite !length_app, length_skipn, length_skipn.
      lia. }
    rewrite (IH s1 dst1 src (offset + n));
      [| exact Hb | lia | rewrite Hd1; lia].
    rewrite process_overwrite_active by exact Hb.
    assert (Hsk : skipn (offset + n) dst1 = skipn n dstO).
    { subst dst1. rewrite app_assoc. apply skipn_exact, Hpre. }
    assert (Hfi : firstn (offset + n) dst1 = firstn offset dst ++ snd r1).
    { subst dst1. rewrite app_assoc. apply firstn_exact, Hpre. }
    rewrite Hsk, Hfi.
    subst s1 srcO dstO; cbn [sFilter with_filter with_delay vChains vDelay
                               fst snd].
    fold fs. rewrite !skipn_plus, <- !app_assoc.
    rewrite Nat.add_assoc. reflexivity.
Qed.

(** C2. On an object that is not in bypass, [process_overwrite] over a
    whole buffer and [process_overwrite] over the same buffer cut into
    consecutive sub-calls of any sizes give the same samples in [dst] and
    leave the object, with the delay lines of its chain, in the same
    state: what each call leaves in the delay lines is what the next one
    starts from.  This holds for every length of the input, the lengths
    above the block limit of 256 among them. *)
Theorem overwrite_block_size_invariant s (dst src : list F)
  (sizes : list nat) :
  bBypass s = false ->
  length dst = length src ->
  list_sum sizes = length src ->
  overwrite_in_parts s dst src sizes 0
  = process_overwrite s dst (Some src) (length src).
Proof.
  intros Hb Hd Hs.
  rewrite overwrite_in_parts_joined by (cbn; lia || assumption).
  cbn [skipn firstn app]. rewrite Hs.
  destruct (process_overwrite s dst (Some src) (length src)); reflexivity.
Qed.

(** *** The block loop of [process_add] and [process_mul] *)

Lemma zip_with_app (op : F -> F -> F) (xs1 : list F) :
  forall (ys1 xs2 ys2 : list F),
  length xs1 = length ys1 ->
  zip_with op (xs1 ++ xs2) (ys1 ++ ys2)
  = zip_with op xs1 ys1 ++ zip_with op xs2 ys2.
Proof.
  induction xs1 as [| x xs1 IH]; intros [| y ys1] xs2 ys2 Hl;
    cbn in *; try discriminate; [reflexivity |].
  f_equal. apply IH. congruence.
Qed.

(** With fuel for its iterations the loop gives what one run of the chain
    over the samples from [offset] to [count] gives: the blocks of 256
    samples do not show in the result. *)
Lemma process_blocks_joined (op : F -> F -> F)
  (combine : list F -> list F -> nat -> list F) (fuel : nat) :
  (forall d v n,
      combine d v n = zip_with op (firstn n d) (firstn n v) ++ skipn n d) ->
  forall (fb : FilterBank F) (dst src : list F) (count offset : nat),
  count - offset <= fuel -> offset <= count ->
  count <= length dst -> count <= length src ->
  process_blocks combine fuel fb dst src count offset
  = (with_delay fb
       (fst (cascade_run (vChains fb) (vDelay fb)
                         (firstn (count - offset) (skipn offset src)))),
     firstn offset dst
     ++ zip_with op (firstn (count - offset) (skipn offset dst))
          (snd (cascade_run (vChains fb) (vDelay fb)
                            (firstn (count - offset) (skipn offset src))))
     ++ skipn count dst).
Proof.
  intros Hc.
  assert (Hstop : forall (fb : FilterBank F) (dst src : list F) count offset,
             count - offset = 0 -> offset <= count ->
             (fb, dst)
             = (with_delay fb
                  (fst (cascade_run (vChains fb) (vDelay fb)
                          (firstn (count - offset) (skipn offset src)))),
                firstn offset dst
                ++ zip_with op (firstn (count - offset) (skipn offset dst))
                     (snd (cascade_run (vChains fb) (vDelay fb)
                             (firstn (count - offset) (skipn offset src))))
                ++ skipn count dst)).
  { intros fb dst src count offset H0 Hle. rewrite H0.
    assert (count = offset) by lia; subst count.
    cbn [firstn cascade_run fst snd zip_with app].
    rewrite with_delay_same, firstn_skipn. reflexivity. }
  induction fuel as [| fuel IH]; intros fb dst src count offset Hf Ho Hd Hs.
  - cbn [process_blocks]. apply Hstop; lia.
  - cbn [process_blocks].
    destruct (Nat.ltb_spec offset count) as [Hlt | Hge];
      [| apply Hstop; lia].
    set (to_do := Nat.min (count - offset) BUF_LIM_SIZE).
    assert (Htd : 1 <= to_do <= count - offset)
      by (subst to_do; unfold BUF_LIM_SIZE; lia).
    set (srcO := skipn offset src).
    set (dstO := skipn offset dst).
    unfold fb_process.
    pose proof (cascade_run_length (vChains fb) (firstn to_do srcO)
                  (vDelay fb)) as Hlen1.
    destruct (cascade_run (vChains fb) (vDelay fb) (firstn to_do srcO))
      as [d1 out1] eqn:Erun.
    cbn [snd] in Hlen1.
    assert (HsrcO : length srcO = length src - offset)
      by (subst srcO; apply length_skipn).
    assert (HdstO : length dstO = length dst - offset)
      by (subst dstO; apply length_skipn).
    rewrite length_firstn in Hlen1.
    assert (Hout1 : length out1 = to_do) by lia.
    rewrite Hc, (firstn_exact out1 _ Hout1).
    set (Z1 := zip_with op (firstn to_do dstO) out1).
    assert (HZ1 : length Z1 = to_do).
    { pose proof (zip_with_elementwise op dstO out1 (count := to_do)
                    ltac:(lia) ltac:(lia)) as (Hl & _).
      rewrite (firstn_all2 (n := to_do) out1) in Hl by lia.
      rewrite length_app, length_skipn in Hl. subst Z1. lia. }
    assert (Hpre : length (firstn offset dst ++ Z1) = offset + to_do)
      by (rewrite length_app, length_firstn; lia).
    set (dst1 := firstn offset dst ++ Z1 ++ skipn to_do dstO).
    assert (Hd1 : length dst1 = length dst).
    { subst dst1. rewrite !length_app, length_firstn, length_skipn. lia. }
    rewrite (IH _ dst1 src count (offset + to_do));
      [| lia | lia | lia | assumption].
    cbn [vChains vDelay].
    assert (Hsk : skipn (offset + to_do) dst1 = skipn to_do dstO)
      by (subst dst1; rewrite app_assoc; apply skipn_exact, Hpre).
    assert (Hfi : firstn (offset + to_do) dst1 = firstn offset dst ++ Z1)
      by (subst dst1; rewrite app_assoc; apply firstn_exact, Hpre).
    assert (Hta : skipn count dst1 = skipn count dst).
    { replace count with ((offset + to_do) + (count - (offset + to_do)))
        at 1 by lia.
      rewrite <- skipn_plus, Hsk. subst dstO.
      rewrite !skipn_plus. f_equal; lia. }
    rewrite Hsk, Hfi, Hta.
    replace (count - offset) with (to_do + (count - (offset + to_do)))
      by lia.
    rewrite !firstn_plus, cascade_run_app.
    fold srcO dstO. rewrite Erun. cbn [fst snd].
    subst srcO dstO. rewrite !skipn_plus.
    rewrite zip_with_app by (rewrite length_firstn, length_skipn; lia).
    fold Z1. rewrite <- !app_assoc. reflexivity.
Qed.

(** X1. The streaming invariant inside one call.  On an object that is not in
    bypass, [process_add] and [process_mul] give what one run of the chain
    over the first [count] samples of [src], added to or multiplied into
    [dst] sample by sample, gives, and leave the delay lines that run
    leaves: the delay lines pass from each block of 256 samples to the
    next. *)
Theorem blocks_do_not_show s (dst src : list F) (count : nat) :
  bBypass s = false ->
  count <= length dst -> count <= length src ->
  let run := cascade_run (vChains (sFilter s)) (vDelay (sFilter s))
                         (firstn count src) in
  process_add s dst (Some src) count
  = (with_filter s (with_delay (sFilter s) (fst run)),
     zip_with fadd (firstn count dst) (snd run) ++ skipn count dst)
  /\ process_mul s dst (Some src) count
     = (with_filter s (with_delay (sFilter s) (fst run)),
        zip_with fmul (firstn count dst) (snd run) ++ skipn count dst)
  /\ process_overwrite s dst (Some src) count
     = (with_filter s (with_delay (sFilter s) (fst run)),
        snd run ++ skipn count dst).
Proof.
  intros Hb Hd Hs; cbv zeta.
  unfold process_add, process_mul. rewrite Hb.
  rewrite (process_blocks_joined fadd dsp_add2 (fuel := count))
    by (reflexivity || lia).
  rewrite (process_blocks_joined fmul dsp_mul2 (fuel := count))
    by (reflexivity || lia).
  rewrite Nat.sub_0_r. cbn [skipn firstn app].
  repeat split. apply process_overwrite_active, Hb.
Qed.

End StreamProperties.

(** ** The gain normalisation, in exact real arithmetic *)

Section Normalisation.

Open Scope R_scope.

Lemma Q2R_one : Q2R 1 = 1.
Proof. unfold Q2R; cbn; field. Qed.

Lemma raw_magnitude_sq (negZero negPole w : R) :
  0 < negPole ->
  response_re (raw_section negZero negPole) w
    * response_re (raw_section negZero negPole) w
  + response_im (raw_section negZero negPole) w
    * response_im (raw_section negZero negPole) w
  = (w * w + negZero * negZero) / (w * w + negPole * negPole).
Proof.
  intros Hp. unfold response_re, response_im, raw_section; cbn.
  field. nra.
Qed.

Lemma raw_magnitude_pos (negZero negPole w : R) :
  0 < negZero -> 0 < negPole ->
  0 < magnitude (raw_section negZero negPole) w.
Proof.
  intros Hz Hp. unfold magnitude. rewrite raw_magnitude_sq by assumption.
  apply sqrt_lt_R0. apply Rdiv_lt_0_compat; nra.
Qed.

(** Scaling the numerator scales the response. *)
Lemma scaled_magnitude (negZero negPole g w : R) :
  0 < negPole -> 0 <= g ->
  magnitude {| b0 := negZero * g; b1 := 1 * g; a0 := negPole; a1 := 1 |} w
  = g * magnitude (raw_section negZero negPole) w.
Proof.
  intros Hp Hg. unfold magnitude.
  rewrite raw_magnitude_sq by assumption.
  set (m := (w * w + negZero * negZero) / (w * w + negPole * negPole)).
  transitivity (sqrt (g * g) * sqrt m);
    [| rewrite sqrt_square by assumption; reflexivity].
  rewrite <- sqrt_mult_alt by nra.
  f_equal. subst m. unfold response_re, response_im; cbn.
  field. nra.
Qed.

(** The closed forms of lines 108-111 are the real and the imaginary part
    of the response of the unscaled section at pi times the sample rate,
    so the gain of line 113 is the reciprocal of its magnitude there. *)
Lemma nyquist_gain (rate : N) (negZero negPole : R) :
  0 < negPole ->
  compute_bilinear_element STLT_NORM_AT_NYQUIST rate negZero negPole
  = {| b0 := negZero
             * (1 / magnitude (raw_section negZero negPole)
                              (PI * IZR (Z.of_N rate)));
       b1 := 1 * (1 / magnitude (raw_section negZero negPole)
                                (PI * IZR (Z.of_N rate)));
       a0 := negPole; a1 := 1 |}.
Proof.
  intros Hp.
  unfold compute_bilinear_element, magnitude, response_re, response_im,
    raw_section.
  cbn [f_lit f_of_size f_pi fadd fsub fmul fdiv sqrtf R_FloatOps
       b0 b1 a0 a1].
  rewrite !Q2R_one.
  set (fs := IZR (Z.of_N rate)).
  assert (Hw : 0 <= (PI * fs) * (PI * fs)) by nra.
  assert (Hre : (PI * PI * fs * fs * 1 * 1 + negPole * negZero)
                / (PI * PI * fs * fs * 1 * 1 + negPole * negPole)
                = (negZero * negPole + 1 * (PI * fs) * (1 * (PI * fs)))
                  / (negPole * negPole + 1 * (PI * fs) * (1 * (PI * fs))))
    by (field; repeat split; nra).
  assert (Him : PI * fs * (1 * negPole - 1 * negZero)
                / (PI * PI * fs * fs * 1 * 1 + negPole * negPole)
                = (1 * (PI * fs) * negPole - negZero * (1 * (PI * fs)))
                  / (negPole * negPole + 1 * (PI * fs) * (1 * (PI * fs))))
    by (field; repeat split; nra).
  rewrite Hre, Him. reflexivity.
Qed.

Lemma dc_gain (rate : N) (negZero negPole : R) :
  compute_bilinear_element STLT_NORM_AT_DC rate negZero negPole
  = {| b0 := negZero * (negPole / negZero);
       b1 := 1 * (negPole / negZero);
       a0 := negPole; a1 := 1 |}.
Proof.
  unfold compute_bilinear_element.
  cbn [f_lit fmul fdiv R_FloatOps]. rewrite !Q2R_one. reflexivity.
Qed.

(** C6. In exact real arithmetic, for positive [negZero] and [negPole]
    and a positive sample rate, the section of
    [compute_bilinear_element], b0 = negZero, b1 = 1, a0 = negPole,
    a1 = 1 with b0 and b1 scaled by the gain of the mode, has a response
    of magnitude exactly 1 at the reference of the mode: at the angular
    frequency 0 for [AtDc], whose gain is a0 / b0, and at pi times the
    sample rate for [AtNyquist], whose gain is the reciprocal of the
    magnitude of the unscaled section there. *)
Theorem gain_normalised (rate : N) (negZero negPole : R) :
  0 < negZero -> 0 < negPole -> (0 < rate)%N ->
  let raw := raw_section negZero negPole in
  let w := PI * IZR (Z.of_N rate) in
  let dc := compute_bilinear_element STLT_NORM_AT_DC rate negZero negPole in
  let nyq :=
    compute_bilinear_element STLT_NORM_AT_NYQUIST rate negZero negPole in
  dc = {| b0 := b0 raw * (a0 raw / b0 raw);
          b1 := b1 raw * (a0 raw / b0 raw);
          a0 := a0 raw; a1 := a1 raw |}
  /\ magnitude dc 0 = 1
  /\ nyq = {| b0 := b0 raw * (1 / magnitude raw w);
              b1 := b1 raw * (1 / magnitude raw w);
              a0 := a0 raw; a1 := a1 raw |}
  /\ magnitude nyq w = 1.
Proof.
  intros Hz Hp Hr; cbv zeta.
  pose proof (raw_magnitude_pos (PI * IZR (Z.of_N rate)) Hz Hp) as Hm.
  pose proof (raw_magnitude_pos 0 Hz Hp) as Hm0.
  split; [apply dc_gain |].
  split.
  - rewrite dc_gain, scaled_magnitude;
      [| assumption | apply Rlt_le, Rdiv_lt_0_compat; assumption].
    unfold magnitude. rewrite raw_magnitude_sq by assumption.
    replace ((0 * 0 + negZero * negZero) / (0 * 0 + negPole * negPole))
      with ((negZero / negPole) * (negZero / negPole))
      by (field; lra).
    rewrite sqrt_square
      by (apply Rlt_le, Rdiv_lt_0_compat; assumption).
    field; split; lra.
  - split; [apply nyquist_gain; assumption |].
    rewrite nyquist_gain, scaled_magnitude;
      [| assumption | apply Rlt_le, Rdiv_lt_0_compat; lra | assumption].
    field; lra.
Qed.

End Normalisation.

(** ** Concrete runs, in exact real arithmetic *)

Section Runs.

Open Scope R_scope.

Lemma R_fge_true (x y : R) : x >= y -> fge x y = true.
Proof. intros H; cbn. destruct (Rge_dec x y); [reflexivity | contradiction]. Qed.

Lemma R_fge_false (x y : R) : x < y -> fge x y = false.
Proof. intros H; cbn. destruct (Rge_dec x y); [lra | reflexivity]. Qed.

Lemma R_fle_true (x y : R) : x <= y -> fle x y = true.
Proof. intros H; cbn. destruct (Rle_dec x y); [reflexivity | contradiction]. Qed.

Lemma R_feq_false (x y : R) : x <> y -> feq x y = false.
Proof.
  intros H; cbn. destruct (Req_dec_T x y); [contradiction | reflexivity].
Qed.

Lemma tilt_44100_active : bBypass (update_settings tilt_44100) = false.
Proof.
  destruct (update_settings_pending tilt_44100 eq_refl)
    as (_ & _ & _ & _ & _ & _ & _ & -> & _).
  cbn [enSlopeUnit fSlopeVal tilt_44100 set_sample_rate construct
       slope_nep_nep slope_unit_eqb orb].
  apply R_feq_false. cbn [f_lit R_FloatOps]. unfold Q2R; cbn; lra.
Qed.

Lemma order_three_active : bBypass (update_settings order_three) = false.
Proof.
  destruct (update_settings_pending order_three eq_refl)
    as (_ & _ & _ & _ & _ & _ & _ & -> & _).
  cbn [enSlopeUnit fSlopeVal order_three tilt_44100 set_order
       set_sample_rate construct slope_nep_nep slope_unit_eqb orb].
  apply R_feq_false. cbn [f_lit R_FloatOps]. unfold Q2R; cbn; lra.
Qed.

Lemma band_example_half_nyquist :
  fge (fLowerFrequency band_example)
      (fdiv (fmul (f_lit 0.5) (f_of_size (nSampleRate band_example)))
            (f_lit 2)) = true.
Proof.
  apply R_fge_true.
  cbn [fLowerFrequency nSampleRate band_example set_frequency_range
       set_sample_rate f_lit f_of_size fmul fdiv R_FloatOps].
  unfold Q2R; cbn; lra.
Qed.

Lemma band_example_checks :
  fge (fLowerFrequency band_example)
      (fmul (f_lit 0.5) (f_of_size (nSampleRate band_example))) = false
  /\ fge (fUpperFrequency band_example)
         (fmul (f_lit 0.5) (f_of_size (nSampleRate band_example))) = false
  /\ fge (fLowerFrequency band_example) (fUpperFrequency band_example)
     = false.
Proof.
  repeat split; apply R_fge_false;
    cbn [fLowerFrequency fUpperFrequency nSampleRate band_example
         set_frequency_range set_sample_rate f_lit f_of_size fmul
         R_FloatOps];
    unfold Q2R; cbn; lra.
Qed.

Lemma band_example_kept :
  fLowerFrequency (update_settings band_example) = 15000
  /\ fUpperFrequency (update_settings band_example) = 20000.
Proof.
  destruct (update_settings_pending band_example eq_refl)
    as (_ & _ & _ & _ & _ & Hband & _).
  destruct band_example_checks as (H1 & H2 & H3).
  unfold validate_band in Hband. rewrite H1, H2, H3 in Hband.
  injection Hband as -> ->. split; reflexivity.
Qed.

Lemma falling_slope_value :
  fSlopeNepNep (update_settings falling_slope)
  = -3 * Q2R 0.16609640419483184814453125.
Proof.
  destruct (update_settings_pending falling_slope eq_refl)
    as (_ & _ & _ & -> & _).
  reflexivity.
Qed.

Lemma falling_slope_nonpositive :
  fle (fSlopeNepNep (update_settings falling_slope)) (f_lit 0) = true.
Proof.
  rewrite falling_slope_value. apply R_fle_true.
  cbn [f_lit R_FloatOps]. unfold Q2R; cbn; lra.
Qed.

Lemma order_101_reachable : reachable order_101.
Proof. apply reach_set_order, reach_set_sample_rate, reach_construct. Qed.

Lemma order_101_active : bBypass (update_settings order_101) = false.
Proof.
  destruct (update_settings_pending order_101 eq_refl)
    as (_ & _ & _ & _ & _ & _ & _ & -> & _).
  cbn [enSlopeUnit fSlopeVal order_101 tilt_44100 set_order
       set_sample_rate construct slope_nep_nep slope_unit_eqb orb].
  apply R_feq_false. cbn [f_lit R_FloatOps]. unfold Q2R; cbn; lra.
Qed.

Lemma order_101_effective : nOrder (update_settings order_101) = 100%N.
Proof.
  destruct (update_settings_pending order_101 eq_refl) as (-> & _).
  reflexivity.
Qed.

(** The default object at 44.1 kHz after [update_settings]: no bypass,
    effective order 2, one section, the mode [AtNyquist] for the rising
    default slope. *)
Lemma tilt_44100_synchronised :
  bBypass (update_settings tilt_44100) = false
  /\ nOrder (update_settings tilt_44100) = 2%N
  /\ length (vChains (sFilter (update_settings tilt_44100))) = 1%nat
  /\ enNorm (update_settings tilt_44100) = STLT_NORM_AT_NYQUIST.
Proof.
  pose proof tilt_44100_active as Hb.
  destruct (update_settings_pending tilt_44100 eq_refl)
    as (Ho & _ & _ & _ & Hn & _).
  destruct (update_settings_rebuilds tilt_44100 eq_refl) as (_ & Hl & _).
  - cbn. lia.
  - exact Hb.
  - repeat split; [exact Hb | rewrite Ho; reflexivity | rewrite Hl; reflexivity |].
    rewrite Hn. unfold resolve_norm.
    cbn [enNorm enSlopeUnit fSlopeVal tilt_44100 set_sample_rate construct
         norm_eqb slope_nep_nep fle R_FloatOps f_lit].
    destruct (Rle_dec (Q2R 0.5) (Q2R 0)) as [H | H]; [| reflexivity].
    exfalso; revert H; unfold Q2R; cbn; lra.
Qed.

Lemma ramp_length : length ramp = 600%nat.
Proof. unfold ramp. rewrite length_map, length_seq. reflexivity. Qed.

(** C1: the claim as it is written fails.  At 48 kHz the lower edge
    15 kHz is at or above Nyquist / 2 = 12 kHz, and a pending
    [update_settings] does not reset it to 0.1 Hz. *)
Lemma band_not_reset_at_half_nyquist :
  bSync band_example = true
  /\ fge (fLowerFrequency band_example)
         (fdiv (fmul (f_lit 0.5) (f_of_size (nSampleRate band_example)))
               (f_lit 2)) = true
  /\ fLowerFrequency (update_settings band_example) <> f_lit 0.1.
Proof.
  split; [reflexivity |].
  split; [exact band_example_half_nyquist |].
  destruct band_example_kept as [-> _].
  cbn [f_lit R_FloatOps]. unfold Q2R; cbn; lra.
Qed.

(** C1, as amended, on the band 15 kHz - 20 kHz at 48 kHz: no check
    fires and both edges are kept. *)
Lemma band_validated_witness :
  bSync band_example = true
  /\ fLowerFrequency (update_settings band_example) = 15000
  /\ fUpperFrequency (update_settings band_example) = 20000.
Proof.
  split; [reflexivity |].
  destruct (band_validated_against_nyquist band_example eq_refl)
    as (_ & _ & _ & H).
  destruct band_example_checks as (H1 & H2 & H3).
  rewrite H1, H2 in H. exact (H H3).
Defined.

(** C2 on six hundred samples in sub-calls of 256, 256 and 88. *)
Lemma overwrite_block_size_witness :
  (256 < length ramp)%nat
  /\ bBypass (update_settings tilt_44100) = false
  /\ overwrite_in_parts (update_settings tilt_44100)
       (repeat 0 600) ramp three_calls 0
     = process_overwrite (update_settings tilt_44100)
         (repeat 0 600) (Some ramp) (length ramp).
Proof.
  split; [rewrite ramp_length; lia |].
  split; [exact tilt_44100_active |].
  apply (overwrite_block_size_invariant (update_settings tilt_44100)
           (repeat 0 600) ramp three_calls tilt_44100_active).
  - rewrite ramp_length. apply repeat_length.
  - rewrite ramp_length. reflexivity.
Defined.

(** C3 on a slope value of 6 with the unit [None]. *)
Lemma bypass_identity_witness :
  bSync unit_none = true
  /\ enSlopeUnit unit_none = STLT_SLOPE_UNIT_NONE
  /\ bBypass (update_settings unit_none) = true
  /\ elementwise Rplus [1; 2; 3] [10; 20; 30] 2
       (snd (process_add (update_settings unit_none)
                         [1; 2; 3] (Some [10; 20; 30]) 2)).
Proof.
  split; [reflexivity |].
  split; [reflexivity |].
  destruct (bypass_identity unit_none eq_refl eq_refl) as [Hb H].
  split; [exact Hb |].
  destruct (H [1; 2; 3] [10; 20; 30] 2%nat eq_refl
              (le_S 2 2 (le_n 2))) as (_ & [_ Ha] & _).
  exact Ha.
Defined.

(** C4 on a buffer of three samples and a count of two. *)
Lemma absent_source_witness :
  (2 <= length [1; 2; 3])%nat
  /\ process_add tilt_44100 [1; 2; 3] None 2 = (tilt_44100, [1; 2; 3])
  /\ zero_filled [1; 2; 3] 2
       (snd (process_overwrite tilt_44100 [1; 2; 3] None 2)).
Proof.
  pose (H := absent_source_identity tilt_44100 [1; 2; 3]
               (le_S 2 2 (le_n 2))).
  split; [exact (le_S 2 2 (le_n 2)) |].
  split; [exact (proj1 H) |].
  exact (proj2 (proj2 (proj2 (proj2 H)))).
Defined.

(** C5 on a requested order of 3 at 44.1 kHz: effective order 4 and two
    sections. *)
Lemma effective_order_witness :
  bSync order_three = true
  /\ nMaxItems (sFilter order_three) = N.to_nat MAX_ORDER
  /\ nOrder (update_settings order_three) = 4%N
  /\ length (vChains (sFilter (update_settings order_three))) = 2%nat.
Proof.
  split; [reflexivity |].
  split; [reflexivity |].
  destruct (effective_order_after_sync order_three eq_refl eq_refl)
    as (_ & _ & _ & _ & H3 & Hlen).
  split; [exact (H3 eq_refl) |].
  rewrite (Hlen order_three_active), (H3 eq_refl). reflexivity.
Defined.

(** C6 on the zero 1 and the pole 2 at 44.1 kHz. *)
Lemma gain_normalised_witness :
  magnitude (compute_bilinear_element STLT_NORM_AT_DC 44100 1 2) 0 = 1
  /\ magnitude (compute_bilinear_element STLT_NORM_AT_NYQUIST 44100 1 2)
               (PI * IZR (Z.of_N 44100)) = 1.
Proof.
  destruct (@gain_normalised 44100 1 2 Rlt_0_1 Rlt_0_2 eq_refl)
    as (_ & Hdc & _ & Hnyq).
  split; [exact Hdc | exact Hnyq].
Defined.

(** C7 on a falling slope: [Auto] becomes [AtDc]. *)
Lemma auto_norm_witness :
  bSync falling_slope = true
  /\ enNorm falling_slope = STLT_NORM_AUTO
  /\ enNorm (update_settings falling_slope) = STLT_NORM_AT_DC.
Proof.
  split; [reflexivity |].
  split; [reflexivity |].
  destruct (auto_norm_resolved falling_slope eq_refl) as (H & _).
  rewrite (H eq_refl), falling_slope_nonpositive. reflexivity.
Defined.

(** C8 on -3 dB per octave. *)
Lemma slope_conversion_witness :
  bSync falling_slope = true
  /\ fSlopeNepNep (update_settings falling_slope)
     = -3 * Q2R 0.16609640419483184814453125.
Proof.
  split; [reflexivity |].
  exact (proj1 (slope_conversion falling_slope eq_refl) eq_refl).
Defined.

(** C10 on a requested order of 101 at 44.1 kHz: the rebuild completes
    with fifty sections. *)
Lemma add_chain_never_null_witness :
  reachable order_101
  /\ fst (update_settings_exit order_101) = ExitRebuilt
  /\ length (vChains (sFilter (update_settings order_101))) = 50%nat.
Proof.
  split; [exact order_101_reachable |].
  destruct (add_chain_never_null order_101_reachable) as (_ & _ & _ & H).
  destruct (H order_101_active) as (He & Hl & _).
  split; [exact He |].
  rewrite Hl, order_101_effective. reflexivity.
Defined.

(** X1 on six hundred samples, which take three blocks:
    [process_add] leaves the chain as one [process_overwrite] over the
    same samples leaves it. *)
Lemma blocks_do_not_show_witness :
  (BUF_LIM_SIZE < length ramp)%nat
  /\ fst (process_add (update_settings tilt_44100)
                      (repeat 0 600) (Some ramp) 600)
     = fst (process_overwrite (update_settings tilt_44100)
                              (repeat 0 600) (Some ramp) 600).
Proof.
  split; [rewrite ramp_length; unfold BUF_LIM_SIZE; lia |].
  assert (Hd : (600 <= length (repeat 0 600))%nat)
    by (rewrite repeat_length; apply le_n).
  assert (Hs : (600 <= length ramp)%nat)
    by (rewrite ramp_length; apply le_n).
  destruct (blocks_do_not_show (update_settings tilt_44100)
              (repeat 0 600) ramp tilt_44100_active Hd Hs)
    as (Ha & _ & Ho).
  rewrite Ha, Ho. reflexivity.
Defined.

End Runs.

(** ** Further properties of [update_settings] *)

Section SyncExtras.

Context {F : Type} {FO : FloatOps F} {DL : DspLib F}.

Implicit Type s : SpectralTilt F.

Lemma update_settings_bypass_chain s :
  bSync s = true ->
  bBypass (update_settings s) = true ->
  sFilter (update_settings s) = sFilter s.
Proof.
  intros Hsync. unfold update_settings, update_settings_exit.
  rewrite Hsync; cbn [negb].
  destruct (validate_band _ _ _) as [lower upper].
  destruct (slope_unit_eqb _ _ || feq _ _); [reflexivity |].
  destruct (assemble_chain _ _ _ _ _ _ _ _ _) as [[|] fb1]; cbn; discriminate.
Qed.

Lemma slope_unit_eqb_none (unit : stlt_slope_unit_t) :
  slope_unit_eqb unit STLT_SLOPE_UNIT_NONE = true
  <-> unit = STLT_SLOPE_UNIT_NONE.
Proof. destruct unit; cbn; split; congruence. Qed.

(** X2. A pending [update_settings] leaves the object in bypass exactly
    when the slope unit is [None] or the canonical slope it has computed
    compares equal to 0; it then returns before the rebuild, so the chain
    is left as it was, sections and delay lines. *)
Theorem bypass_rule s :
  bSync s = true ->
  let s' := update_settings s in
  (bBypass s' = true <->
   enSlopeUnit s = STLT_SLOPE_UNIT_NONE
   \/ feq (fSlopeNepNep s') (f_lit 0) = true)
  /\ (bBypass s' = true -> sFilter s' = sFilter s).
Proof.
  intros Hsync; cbv zeta.
  destruct (update_settings_pending s Hsync)
    as (_ & _ & _ & Hslope & _ & _ & _ & Hb & _).
  split; [| apply update_settings_bypass_chain, Hsync].
  rewrite Hb, Hslope, orb_true_iff, slope_unit_eqb_none. reflexivity.
Qed.

Lemma validate_band_ordered rate (lower upper : F) :
  fge (fst (validate_band rate lower upper))
      (snd (validate_band rate lower upper)) = false.
Proof.
  unfold validate_band.
  match goal with
  | |- context [if fge ?l ?u then (_, _) else (_, _)] =>
      destruct (fge l u) eqn:E
  end; cbn [fst snd]; [apply dfl_band_ordered | exact E].
Qed.

(** X3. After a pending [update_settings] the band is ordered: the
    comparison lower edge >= upper edge is false on the stored edges,
    whatever the edges and the sample rate were. *)
Theorem band_ordered_after_sync s :
  bSync s = true ->
  fge (fLowerFrequency (update_settings s))
      (fUpperFrequency (update_settings s)) = false.
Proof.
  intros Hsync.
  destruct (update_settings_pending s Hsync)
    as (_ & _ & _ & _ & _ & Hband & _).
  pose proof (validate_band_ordered (nSampleRate s) (fLowerFrequency s)
                (fUpperFrequency s)) as H.
  rewrite <- Hband in H. exact H.
Qed.

(** X4. [update_settings] never clears the flag it tests at its entry:
    the flag is after the call what it was before, so an object whose flag
    is set is rebuilt by every call, and an object whose flag is clear is
    returned as it is. *)
Theorem sync_flag_kept s :
  bSync (update_settings s) = bSync s
  /\ (bSync s = false -> update_settings s = s).
Proof.
  split; [| apply update_settings_not_pending].
  destruct (bSync s) eqn:Hsync.
  - apply (update_settings_pending s Hsync).
  - rewrite (update_settings_not_pending s Hsync). exact Hsync.
Qed.

(** *** The effective order at the edges of [size_t] *)

Lemma size_wrap_small (n : N) : (n < SIZE_MODULUS)%N -> size_wrap n = n.
Proof. intros H. unfold size_wrap. apply N.mod_small, H. Qed.

Lemma size_wrap_modulus : size_wrap SIZE_MODULUS = 0%N.
Proof. reflexivity. Qed.

(** X5. The effective order over the whole range of [size_t].  A request
    of at most 100 is kept or raised by one; a request from 100 up to the
    largest value but one gives 100; the largest value of [size_t], which
    is odd, wraps to 0 when it is rounded up, and gives the order 0.  The
    order 0 comes from the requests 0 and the largest value only. *)
Theorem effective_order_range s :
  bSync s = true ->
  (nOrder s < SIZE_MODULUS)%N ->
  let order' := nOrder (update_settings s) in
  ((nOrder s <= 100)%N -> (nOrder s <= order' <= nOrder s + 1)%N)
  /\ ((100 <= nOrder s < SIZE_MODULUS - 1)%N -> order' = 100%N)
  /\ (nOrder s = (SIZE_MODULUS - 1)%N -> order' = 0%N)
  /\ (order' = 0%N <-> nOrder s = 0%N \/ nOrder s = (SIZE_MODULUS - 1)%N).
Proof.
  intros Hsync Hlt; cbv zeta.
  destruct (update_settings_pending s Hsync) as (-> & _).
  generalize dependent (nOrder s); intros n Hlt.
  assert (Hmax : effective_order (SIZE_MODULUS - 1) = 0%N) by reflexivity.
  assert (Hcase : (n = SIZE_MODULUS - 1)%N
                  \/ (n <> SIZE_MODULUS - 1)%N
                     /\ effective_order n
                        = N.min (if (n mod 2 =? 0)%N then n else (n + 1)%N)
                                100).
  { destruct (N.eq_dec n (SIZE_MODULUS - 1)) as [E | E]; [left; exact E |].
    right. split; [exact E |]. unfold effective_order, MAX_ORDER.
    destruct (n mod 2 =? 0)%N; [reflexivity |].
    rewrite size_wrap_small; [reflexivity |].
    unfold SIZE_MODULUS in *. lia. }
  assert (Hodd : (n mod 2 =? 0)%N = false -> (n <> 0 /\ n <> 100)%N).
  { intros H. apply N.eqb_neq in H.
    split; intros ->; apply H; reflexivity. }
  unfold SIZE_MODULUS in *.
  destruct Hcase as [-> | [Hn Hc]].
  - rewrite Hmax. repeat split; intros; try lia; try (right; reflexivity).
  - rewrite Hc. destruct (n mod 2 =? 0)%N eqn:Ep.
    + repeat split; intros; lia.
    + destruct (Hodd eq_refl). repeat split; intros; lia.
Qed.

(** *** The chain in closed form *)

Lemma ladder_step_shift (r : F) (k : nat) (x : F) :
  ladder_step r k (fmul x r) = ladder_step r (S k) x.
Proof.
  induction k as [| k IH]; [reflexivity |].
  cbn [ladder_step] in *. rewrite IH. reflexivity.
Qed.

Lemma section_at_shift norm rate (r c_fn negZero negPole : F) (k : nat) :
  section_at norm rate r c_fn (fmul (fmul negZero r) r)
             (fmul (fmul negPole r) r) k
  = section_at norm rate r c_fn negZero negPole (S k).
Proof.
  unfold section_at.
  replace (2 * S k) with (S (S (2 * k))) by lia.
  replace (S (S (2 * k)) + 1) with (S (S (2 * k + 1))) by lia.
  rewrite !ladder_step_shift. reflexivity.
Qed.

(** With room for its sections the loop appends, for the pairs 0, 1, ...
    in this order, the sections of the ladder that starts at the current
    zero and pole. *)
Lemma assemble_chain_sections norm rate (r c_fn : F) (todo : nat) :
  forall (n : N) (negZero negPole : F) (fb : FilterBank F),
  length (vChains fb) + even_steps n todo <= nMaxItems fb ->
  vChains (snd (assemble_chain norm rate r c_fn todo n negZero negPole fb))
  = vChains fb
    ++ map (section_at norm rate r c_fn negZero negPole)
           (seq 0 (even_steps n todo)).
Proof.
  induction todo as [| todo IH]; intros n negZero negPole fb Hroom.
  - cbn. rewrite app_nil_r. reflexivity.
  - cbn [assemble_chain even_steps] in *.
    destruct (n mod 2 =? 0)%N; cbn [negb].
    + unfold fb_add_chain.
      destruct (Nat.ltb_spec (length (vChains fb)) (nMaxItems fb)) as [L | L];
        [| lia].
      match goal with
      | |- context [fb_store fb ?k ?bq] => set (fb1 := fb_store fb k bq)
      end.
      assert (H1 : vChains fb1
                   = vChains fb
                     ++ [section_at norm rate r c_fn negZero negPole 0]).
      { subst fb1; cbn [fb_store vChains]. rewrite firstn_all. reflexivity. }
      rewrite IH.
      * rewrite H1, <- app_assoc. f_equal.
        cbn [Nat.add seq map app]. f_equal.
        rewrite <- seq_shift, map_map.
        apply map_ext. intros k. apply section_at_shift.
      * rewrite H1, length_app. subst fb1; cbn [fb_store nMaxItems length].
        lia.
    + cbn [Nat.add]. apply IH. lia.
Qed.

(** X6. After a pending [update_settings] that does not end in bypass, on
    a chain with room for 50 sections, the chain is the list of the
    effective order / 2 sections of the ladder, first pair first, each a
    function of the fields the call has left: mode, sample rate, band
    edges, canonical slope and order. *)
Theorem chain_closed_form s :
  bSync s = true ->
  N.to_nat (MAX_ORDER / 2) <= nMaxItems (sFilter s) ->
  bBypass (update_settings s) = false ->
  let s' := update_settings s in
  vChains (sFilter s')
  = map (section_at (enNorm s') (nSampleRate s') (ladder_ratio s')
                    (prewarp s') (ladder_zero s') (ladder_pole s'))
        (seq 0 (N.to_nat (nOrder s' / 2))).
Proof.
  intros Hsync Hroom; cbv zeta.
  unfold update_settings, update_settings_exit.
  rewrite Hsync; cbn [negb].
  destruct (validate_band _ _ _) as [lower upper].
  destruct (slope_unit_eqb _ _ || feq _ _); [cbn; discriminate |].
  intros _.
  pose proof (effective_order_mod2 (nOrder s)) as E.
  pose proof (effective_order_le (nOrder s)) as L.
  pose proof (even_steps_order _ E) as Hs.
  assert (Hhalf : N.to_nat (effective_order (nOrder s) / 2)
                  <= N.to_nat (MAX_ORDER / 2)).
  { pose proof (N.Div0.div_le_mono _ _ 2 L) as D.
    change (MAX_ORDER / 2)%N with 50%N in *.
    generalize dependent (effective_order (nOrder s) / 2)%N; intros; lia. }
  match goal with
  | |- context [assemble_chain ?a ?b ?c ?d ?e ?f ?g ?h ?i] =>
      destruct (assemble_chain_complete a b c d e f g h i)
        as (fb' & Ha & _);
      [| pose proof (assemble_chain_sections a b c d e f g h i) as Hsec ]
  end.
  { cbn [fb_begin vChains nMaxItems length]. rewrite Hs. lia. }
  rewrite Ha in Hsec |- *. cbn [snd fb_begin vChains app] in Hsec.
  cbn [snd sFilter fb_end vChains].
  rewrite Hsec by (cbn [fb_begin vChains nMaxItems length]; rewrite Hs; lia).
  rewrite Hs. reflexivity.
Qed.

End SyncExtras.

(** ** Further properties of the streaming entry points *)

Section StreamExtras.

Context {F : Type} {FO : FloatOps F} {DL : DspLib F}.

Implicit Type s : SpectralTilt F.

Lemma same_but_delay_refl s : same_but_delay s s.
Proof.
  exists (vDelay (sFilter s)).
  rewrite with_delay_same, with_filter_same. reflexivity.
Qed.

Lemma process_blocks_delay_only combine (fuel : nat) :
  forall (fb : FilterBank F) (dst src : list F) (count offset : nat),
  exists d : list (F * F),
    fst (process_blocks combine fuel fb dst src count offset)
    = with_delay fb d.
Proof.
  induction fuel as [| fuel IH]; intros fb dst src count offset.
  - exists (vDelay fb). cbn. symmetry; apply with_delay_same.
  - cbn [process_blocks].
    destruct (offset <? count);
      [| exists (vDelay fb); cbn; symmetry; apply with_delay_same].
    unfold fb_process.
    destruct (cascade_run _ _ _) as [ds out].
    match goal with
    | |- context [process_blocks combine fuel ?b ?d ?x ?c ?o] =>
        destruct (IH b d x c o) as [d' Hd']
    end.
    exists d'. rewrite Hd'. reflexivity.
Qed.

(** X7. The streaming entry points never touch the settings: after
    [process_add], [process_mul] or [process_overwrite], with any
    arguments, the object differs from the one before at most in the delay
    lines of its chain; configuration, derived state, flags, capacity and
    sections are the same.  With [src] absent or the object in bypass the
    object is left entirely as it was. *)
Theorem streaming_keeps_settings s (dst : list F) (src : option (list F))
  (count : nat) :
  (same_but_delay s (fst (process_add s dst src count))
   /\ same_but_delay s (fst (process_mul s dst src count))
   /\ same_but_delay s (fst (process_overwrite s dst src count)))
  /\ (src = None \/ bBypass s = true ->
      fst (process_add s dst src count) = s
      /\ fst (process_mul s dst src count) = s
      /\ fst (process_overwrite s dst src count) = s).
Proof.
  unfold process_add, process_mul, process_overwrite.
  destruct src as [src |].
  - destruct (bBypass s) eqn:Hb.
    + cbn [fst]. repeat split; apply same_but_delay_refl.
    + split; [| intros [H | H]; discriminate].
      split; [| split].
      * destruct (process_blocks_delay_only dsp_add2 count (sFilter s)
                    dst src count 0) as [d Hd].
        destruct (process_blocks _ _ _ _ _ _ _) as [fb dst'];
          cbn [fst] in *.
        exists d. rewrite Hd. reflexivity.
      * destruct (process_blocks_delay_only dsp_mul2 count (sFilter s)
                    dst src count 0) as [d Hd].
        destruct (process_blocks _ _ _ _ _ _ _) as [fb dst'];
          cbn [fst] in *.
        exists d. rewrite Hd. reflexivity.
      * unfold fb_process. destruct (cascade_run _ _ _) as [ds out].
        exists ds. reflexivity.
  - cbn [fst]. repeat split; apply same_but_delay_refl.
Qed.

Lemma zip_with_length (op : F -> F -> F) (xs : list F) :
  forall ys : list F,
  length (zip_with op xs ys) = Nat.min (length xs) (length ys).
Proof.
  induction xs as [| x xs IH]; intros [| y ys]; cbn; try reflexivity.
  rewrite IH. reflexivity.
Qed.

Lemma kept_beyond_prefix (dst pre : list F) (count : nat) :
  length pre = count -> count <= length dst ->
  kept_beyond dst count (pre ++ skipn count dst).
Proof.
  intros Hp Hd. split.
  - rewrite length_app, length_skipn. lia.
  - intros i Hi. rewrite nth_error_app2 by lia.
    rewrite nth_error_skipn. f_equal; lia.
Qed.

Lemma kept_beyond_same (dst : list F) (count : nat) :
  kept_beyond dst count dst.
Proof. split; [reflexivity | intros; reflexivity]. Qed.

Lemma kept_beyond_zip (op : F -> F -> F) (dst out : list F) (count : nat) :
  length out = count -> count <= length dst ->
  kept_beyond dst count (zip_with op (firstn count dst) out ++ skipn count dst).
Proof.
  intros Ho Hd. apply kept_beyond_prefix; [| exact Hd].
  rewrite zip_with_length, length_firstn. lia.
Qed.

(** X8. The streaming entry points write the first [count] samples of
    [dst] at most.  For a count within the buffers, in every mode ([src]
    absent, bypass, chain active), [dst] keeps its length and its samples
    from [count] on. *)
Theorem streaming_stays_in_bounds s (dst : list F) (src : option (list F))
  (count : nat) :
  count <= length dst ->
  (forall buf, src = Some buf -> count <= length buf) ->
  kept_beyond dst count (snd (process_add s dst src count))
  /\ kept_beyond dst count (snd (process_mul s dst src count))
  /\ kept_beyond dst count (snd (process_overwrite s dst src count)).
Proof.
  intros Hd Hsrc.
  unfold process_add, process_mul, process_overwrite.
  destruct src as [src |].
  - specialize (Hsrc src eq_refl).
    assert (Hrun : forall ds,
               length (snd (cascade_run (vChains (sFilter s)) ds
                                        (firstn count src))) = count).
    { intros ds. rewrite cascade_run_length, length_firstn. lia. }
    assert (Hfst : length (firstn count src) = count)
      by (rewrite length_firstn; lia).
    destruct (bBypass s).
    + cbn [snd]. unfold dsp_add2, dsp_mul2, dsp_copy.
      repeat split;
        first [ apply kept_beyond_zip; assumption
              | apply kept_beyond_prefix; assumption ].
    + rewrite (process_blocks_joined fadd dsp_add2 (fuel := count))
        by (reflexivity || lia).
      rewrite (process_blocks_joined fmul dsp_mul2 (fuel := count))
        by (reflexivity || lia).
      rewrite Nat.sub_0_r. cbn [skipn firstn app snd].
      unfold fb_process.
      pose proof (Hrun (vDelay (sFilter s))) as Hr.
      destruct (cascade_run _ _ _) as [ds out]; cbn [snd] in *.
      repeat split;
        first [ apply kept_beyond_zip; assumption
              | apply kept_beyond_prefix; assumption ].
  - cbn [snd]. unfold dsp_fill_zero.
    repeat split;
      first [ apply kept_beyond_same
            | apply kept_beyond_prefix;
              [apply repeat_length | assumption] ].
Qed.

(** X9. A call with the count 0 does nothing: in every mode each of the
    three entry points returns the object and [dst] as they were. *)
Theorem zero_count_is_noop s (dst : list F) (src : option (list F)) :
  process_add s dst src 0 = (s, dst)
  /\ process_mul s dst src 0 = (s, dst)
  /\ process_overwrite s dst src 0 = (s, dst).
Proof.
  unfold process_add, process_mul, process_overwrite.
  destruct src as [src |]; [destruct (bBypass s) |];
    cbn [process_blocks fb_process firstn cascade_run skipn app
         dsp_add2 dsp_mul2 dsp_copy dsp_fill_zero zip_with repeat];
    try (repeat split; reflexivity).
  fold (with_delay (sFilter s) (vDelay (sFilter s))).
  rewrite with_delay_same, with_filter_same. repeat split; reflexivity.
Qed.

Lemma cascade_run_empty (xs : list F) : forall ds : list (F * F),
  cascade_run [] ds xs = (ds, xs).
Proof.
  induction xs as [| x xs IH]; intros ds; [reflexivity |].
  cbn [cascade_run cascade_step]. rewrite IH. reflexivity.
Qed.

(** X10. The order 0 gives an empty chain, and an empty chain passes its
    input through: after a pending [update_settings] with the effective
    order 0 that does not end in bypass, the chain has no section and
    [process_overwrite] copies [src] into [dst] as in bypass, leaving the
    object as it is. *)
Theorem order_zero_passes_through s :
  bSync s = true ->
  nMaxItems (sFilter s) = N.to_nat MAX_ORDER ->
  nOrder (update_settings s) = 0%N ->
  bBypass (update_settings s) = false ->
  let s' := update_settings s in
  vChains (sFilter s') = []
  /\ forall (dst src : list F) (count : nat),
       process_overwrite s' dst (Some src) count
       = (s', dsp_copy dst src count).
Proof.
  intros Hsync Hcap Ho Hb; cbv zeta.
  destruct (update_settings_pending s Hsync) as (Ho' & _).
  assert (Hroom : N.to_nat (MAX_ORDER / 2) <= nMaxItems (sFilter s)).
  { rewrite Hcap. change (N.to_nat (MAX_ORDER / 2)) with 50.
    change (N.to_nat MAX_ORDER) with 100. lia. }
  destruct (update_settings_rebuilds s Hsync Hroom Hb) as (_ & Hl & _).
  rewrite <- Ho', Ho in Hl. cbn in Hl.
  assert (He : vChains (sFilter (update_settings s)) = [])
    by (apply length_zero_iff_nil, Hl).
  split; [exact He |].
  intros dst src count.
  rewrite process_overwrite_active by exact Hb.
  rewrite He, cascade_run_empty. cbn [fst snd].
  rewrite with_delay_same, with_filter_same. reflexivity.
Qed.

End StreamExtras.

(** ** Further properties in exact real arithmetic *)

Section RealExtras.

Open Scope R_scope.

Implicit Type s : SpectralTilt R.

Lemma Q2R_zero : Q2R 0 = 0.
Proof. unfold Q2R; cbn; lra. Qed.

Lemma Q2R_two : Q2R 2 = 2.
Proof. unfold Q2R; cbn; lra. Qed.

Lemma Q2R_half : Q2R 0.5 = / 2.
Proof. unfold Q2R; cbn; lra. Qed.

Lemma Q2R_dfl_lower : Q2R 0.1 = / 10.
Proof. unfold Q2R; cbn; lra. Qed.

Lemma Q2R_dfl_upper : Q2R 20000 = 20000.
Proof. unfold Q2R; cbn; lra. Qed.

Lemma R_fge_spec (x y : R) : fge x y = true <-> x >= y.
Proof.
  cbn. destruct (Rge_dec x y); split; intros; try reflexivity;
    try assumption; try discriminate; contradiction.
Qed.

Lemma R_fge_false_spec (x y : R) : fge x y = false <-> x < y.
Proof.
  cbn. destruct (Rge_dec x y); split; intros; try reflexivity;
    try discriminate; lra.
Qed.

Lemma R_feq_true (x : R) : feq x x = true.
Proof. cbn. destruct (Req_dec_T x x); [reflexivity | contradiction]. Qed.

(** *** The upper edge and Nyquist *)

(** X11. The band validation does not bring the upper edge below the
    Nyquist frequency at low sample rates: at a sample rate of at most
    40 kHz, an upper edge at or above Nyquist is stored as the default
    20 kHz by a pending [update_settings], and 20 kHz is itself at or above
    Nyquist; the replaced value is not checked again. *)
Theorem upper_edge_stays_above_nyquist s :
  bSync s = true ->
  (Z.of_N (nSampleRate s) <= 40000)%Z ->
  fge (fUpperFrequency s) (fmul (f_lit 0.5) (f_of_size (nSampleRate s)))
  = true ->
  fUpperFrequency (update_settings s) = 20000
  /\ fge (fUpperFrequency (update_settings s))
         (fmul (f_lit 0.5) (f_of_size (nSampleRate s))) = true.
Proof.
  intros Hsync Hrate Hup.
  destruct (update_settings_pending s Hsync)
    as (_ & _ & _ & _ & _ & Hband & _).
  unfold validate_band in Hband. rewrite Hup in Hband.
  assert (Hu : fUpperFrequency (update_settings s) = 20000).
  { match type of Hband with
    | context [if fge ?l ?u then (_, _) else (_, _)] => destruct (fge l u)
    end; injection Hband as _ ->; apply Q2R_dfl_upper. }
  split; [exact Hu |].
  rewrite Hu. apply R_fge_spec.
  cbn [fmul f_lit f_of_size R_FloatOps]. rewrite Q2R_half.
  apply IZR_le in Hrate. lra.
Qed.

(** *** The ladder *)

Lemma ladder_step_pow (r x : R) (k : nat) :
  ladder_step r k x = x * r ^ k.
Proof.
  induction k as [| k IH]; cbn [ladder_step pow].
  - lra.
  - rewrite IH. cbn [fmul R_FloatOps]. ring.
Qed.

Lemma size_pred_positive (n : N) :
  (n mod 2 = 0)%N -> (n <= 100)%N -> (0 < size_pred n)%N.
Proof.
  intros E L.
  destruct (N.eq_dec n 0) as [-> | H0]; [reflexivity |].
  destruct (N.eq_dec n 1) as [-> | H1]; [discriminate |].
  unfold size_pred, size_wrap.
  replace (n + (SIZE_MODULUS - 1))%N with ((n - 1) + 1 * SIZE_MODULUS)%N
    by (unfold SIZE_MODULUS; lia).
  rewrite N.Div0.mod_add, N.mod_small by (unfold SIZE_MODULUS; lia).
  lia.
Qed.

(** X12. The ladder of a rebuild is geometric.  After a pending
    [update_settings] that leaves a positive lower edge, the spacing ratio
    [r] of line 214 is greater than 1, the first pole and the first zero
    are positive, the pole of step [j] is the first pole times [r] to the
    power [j], the poles increase from step to step, and every zero is its
    pole times the one factor [r] to the power minus the canonical slope:
    all the divisions of the element builder are by positive numbers. *)
Theorem ladder_is_geometric s :
  bSync s = true ->
  0 < fLowerFrequency (update_settings s) ->
  let s' := update_settings s in
  let r := ladder_ratio s' in
  1 < r
  /\ 0 < ladder_pole s'
  /\ 0 < ladder_zero s'
  /\ forall j : nat,
       ladder_step r j (ladder_pole s') = ladder_pole s' * r ^ j
       /\ ladder_step r j (ladder_pole s')
          < ladder_step r (S j) (ladder_pole s')
       /\ ladder_step r j (ladder_zero s')
          = Rpower r (- fSlopeNepNep s') * ladder_step r j (ladder_pole s')
       /\ 0 < ladder_step r j (ladder_zero s').
Proof.
  intros Hsync Hlow; cbv zeta.
  destruct (update_settings_pending s Hsync)
    as (Ho & _ & _ & _ & _ & Hband & _).
  pose proof (validate_band_ordered (nSampleRate s) (fLowerFrequency s)
                (fUpperFrequency s)) as Hord.
  rewrite <- Hband in Hord. cbn [fst snd] in Hord.
  apply R_fge_false_spec in Hord.
  set (s' := update_settings s) in *.
  pose proof PI_RGT_0 as Hpi.
  assert (Hpole : 0 < ladder_pole s').
  { unfold ladder_pole. cbn [fmul f_lit f_pi R_FloatOps]. rewrite Q2R_two.
    nra. }
  assert (Hbase : 1 < ladder_top s' / ladder_pole s').
  { unfold ladder_top, ladder_pole in *.
    cbn [fmul f_lit f_pi R_FloatOps] in *. rewrite Q2R_two in *.
    apply (Rmult_lt_reg_r (2 * PI * fLowerFrequency s')); [exact Hpole |].
    field_simplify; nra. }
  assert (Hexp : 0 < Q2R 1 / IZR (Z.of_N (size_pred (nOrder s')))).
  { rewrite Q2R_one. apply Rdiv_lt_0_compat; [lra |].
    apply (IZR_lt 0). rewrite Ho.
    pose proof (size_pred_positive (effective_order_mod2 (nOrder s))
                  (effective_order_le (nOrder s))).
    lia. }
  assert (Hr : 1 < ladder_ratio s').
  { unfold ladder_ratio. cbn [powf fdiv f_lit f_of_size R_FloatOps].
    rewrite <- (Rpower_O (ladder_top s' / ladder_pole s')) by lra.
    apply Rpower_lt; assumption. }
  assert (Hzero : 0 < ladder_zero s').
  { unfold ladder_zero. cbn [fmul powf fneg R_FloatOps].
    apply Rmult_lt_0_compat; [exact Hpole |].
    unfold Rpower. apply exp_pos. }
  split; [exact Hr |]. split; [exact Hpole |]. split; [exact Hzero |].
  intros j.
  assert (Hrj : 0 < ladder_ratio s' ^ j) by (apply pow_lt; lra).
  assert (HP : 0 < ladder_pole s' * ladder_ratio s' ^ j)
    by (apply Rmult_lt_0_compat; assumption).
  rewrite !ladder_step_pow. cbn [pow].
  split; [reflexivity |].
  split.
  { replace (ladder_pole s' * (ladder_ratio s' * ladder_ratio s' ^ j))
      with (ladder_ratio s' * (ladder_pole s' * ladder_ratio s' ^ j))
      by ring.
    nra. }
  split; [| apply Rmult_lt_0_compat; assumption].
  unfold ladder_zero. cbn [fmul powf fneg R_FloatOps]. ring.
Qed.

(** *** The prewarp coefficient *)

(** X13. [bilinear_coefficient] is positive, and its division is by a
    positive tangent, for a positive angular frequency below pi times a
    positive sample rate. *)
Theorem bilinear_coefficient_positive (w fs : R) :
  0 < w -> 0 < fs -> w < PI * fs ->
  0 < tanf (fdiv (fmul (f_lit 0.5) w) fs)
  /\ 0 < bilinear_coefficient w fs.
Proof.
  intros Hw Hfs Hlt.
  assert (Ht : 0 < tan (Q2R 0.5 * w / fs)).
  { rewrite Q2R_half. apply tan_gt_0.
    - apply Rdiv_lt_0_compat; lra.
    - apply (Rmult_lt_reg_r fs); [exact Hfs |].
      field_simplify; lra. }
  split; [exact Ht |].
  unfold bilinear_coefficient. cbn [fdiv fmul tanf f_lit R_FloatOps].
  apply Rdiv_lt_0_compat; assumption.
Qed.

Lemma prewarp_conditions (rate : N) :
  (1 <= rate)%N ->
  0 < Q2R 1 /\ 0 < IZR (Z.of_N rate) /\ Q2R 1 < PI * IZR (Z.of_N rate).
Proof.
  intros H. rewrite Q2R_one.
  assert (Hr : 1 <= IZR (Z.of_N rate)) by (apply (IZR_le 1); lia).
  pose proof PI2_1. repeat split; nra.
Qed.

(** *** The default object *)

Lemma validate_band_defaults (rate : N) :
  validate_band (F := R) rate DFL_LOWER_FREQUENCY DFL_UPPER_FREQUENCY
  = (DFL_LOWER_FREQUENCY, DFL_UPPER_FREQUENCY).
Proof.
  unfold validate_band.
  assert (D : fge (F := R) DFL_LOWER_FREQUENCY DFL_UPPER_FREQUENCY = false)
    by apply dfl_band_ordered.
  set (nyq := fmul (f_lit 0.5) (f_of_size rate)).
  destruct (fge DFL_LOWER_FREQUENCY nyq);
    destruct (fge DFL_UPPER_FREQUENCY nyq); rewrite D; reflexivity.
Qed.

(** X14. The object [construct] makes, synchronised at any sample rate:
    the request of order 1 becomes the order 2 with one section, the
    slope 0.5 Neper per Neper is kept and is not a bypass, the mode [Auto]
    becomes [AtNyquist], and the default band 0.1 Hz - 20 kHz is kept
    even where it reaches the Nyquist frequency. *)
Theorem default_object_synchronised (rate : N) :
  let s' := update_settings (set_sample_rate rate construct) in
  bBypass s' = false
  /\ nOrder s' = 2%N
  /\ length (vChains (sFilter s')) = 1%nat
  /\ fSlopeNepNep s' = / 2
  /\ enNorm s' = STLT_NORM_AT_NYQUIST
  /\ fLowerFrequency s' = / 10
  /\ fUpperFrequency s' = 20000.
Proof.
  cbv zeta.
  set (s := set_sample_rate rate (construct (F := R))).
  destruct (update_settings_pending s eq_refl)
    as (Ho & _ & _ & Hslope & Hn & Hband & _ & Hb & _).
  cbn [s set_sample_rate construct nOrder enSlopeUnit enNorm fSlopeVal
       fLowerFrequency fUpperFrequency nSampleRate slope_nep_nep
       slope_unit_eqb orb] in Ho, Hslope, Hn, Hband, Hb.
  rewrite validate_band_defaults in Hband. injection Hband as Hl Hu.
  assert (Hact : bBypass (update_settings s) = false).
  { rewrite Hb. apply R_feq_false.
    cbn [f_lit R_FloatOps]. rewrite Q2R_half, Q2R_zero. lra. }
  destruct (update_settings_rebuilds s eq_refl) as (_ & Hlen & _);
    [cbn; lia | exact Hact |].
  split; [exact Hact |].
  split; [rewrite Ho; reflexivity |].
  split; [rewrite Hlen; reflexivity |].
  split; [rewrite Hslope; apply Q2R_half |].
  split.
  - rewrite Hn. unfold resolve_norm. cbn [norm_eqb fle R_FloatOps f_lit].
    destruct (Rle_dec (Q2R 0.5) (Q2R 0)) as [H | H]; [| reflexivity].
    exfalso; revert H; rewrite Q2R_half, Q2R_zero; lra.
  - split; [rewrite Hl; apply Q2R_dfl_lower | rewrite Hu; apply Q2R_dfl_upper].
Qed.

End RealExtras.

(** ** Concrete runs of the further properties *)

Section ExtraRuns.

Open Scope R_scope.

Lemma zero_slope_value :
  fSlopeNepNep (update_settings zero_slope) = 0.
Proof.
  destruct (update_settings_pending zero_slope eq_refl)
    as (_ & _ & _ & -> & _).
  cbn [enSlopeUnit fSlopeVal zero_slope set_slope slope_nep_nep
       fmul R_FloatOps]. ring.
Qed.

Lemma order_three_effective : nOrder (update_settings order_three) = 4%N.
Proof.
  destruct (update_settings_pending order_three eq_refl) as (-> & _).
  reflexivity.
Qed.

Lemma order_0_effective : nOrder (update_settings order_0) = 0%N.
Proof.
  destruct (update_settings_pending order_0 eq_refl) as (-> & _).
  reflexivity.
Qed.

Lemma order_0_active : bBypass (update_settings order_0) = false.
Proof.
  destruct (update_settings_pending order_0 eq_refl)
    as (_ & _ & _ & _ & _ & _ & _ & -> & _).
  cbn [enSlopeUnit fSlopeVal order_0 tilt_44100 set_order
       set_sample_rate construct slope_nep_nep slope_unit_eqb orb].
  apply R_feq_false. cbn [f_lit R_FloatOps]. rewrite Q2R_half, Q2R_zero. lra.
Qed.

Lemma slow_rate_upper :
  fge (fUpperFrequency slow_rate)
      (fmul (f_lit 0.5) (f_of_size (nSampleRate slow_rate))) = true.
Proof.
  apply R_fge_spec.
  cbn [fUpperFrequency nSampleRate slow_rate set_sample_rate construct].
  unfold DFL_UPPER_FREQUENCY, DFL_UPPER_FREQUENCY_Q.
  cbn [f_lit f_of_size fmul R_FloatOps].
  rewrite Q2R_half, Q2R_dfl_upper. cbn [Z.of_N]. lra.
Qed.

Lemma slow_rate_bound : (Z.of_N (nSampleRate slow_rate) <= 40000)%Z.
Proof. cbn. lia. Qed.

Lemma tilt_44100_lower : 0 < fLowerFrequency (update_settings tilt_44100).
Proof.
  destruct (update_settings_pending tilt_44100 eq_refl)
    as (_ & _ & _ & _ & _ & Hband & _).
  cbn [tilt_44100 set_sample_rate construct fLowerFrequency
       fUpperFrequency nSampleRate] in Hband.
  rewrite validate_band_defaults in Hband. injection Hband as -> _.
  unfold DFL_LOWER_FREQUENCY, DFL_LOWER_FREQUENCY_Q.
  cbn [f_lit R_FloatOps]. rewrite Q2R_dfl_lower. lra.
Qed.

Lemma ramp_buffers :
  (300 <= length (repeat 0 600))%nat
  /\ forall buf, Some ramp = Some buf -> (300 <= length buf)%nat.
Proof.
  split; [rewrite repeat_length; lia |].
  intros buf H. injection H as <-. rewrite ramp_length. lia.
Qed.

(** X2 on a slope of 0 dB per octave: the canonical slope is 0 and the
    object is in bypass, its chain as [construct] left it. *)
Lemma bypass_rule_witness :
  bSync zero_slope = true
  /\ bBypass (update_settings zero_slope) = true
  /\ sFilter (update_settings zero_slope) = sFilter zero_slope.
Proof.
  split; [reflexivity |].
  destruct (bypass_rule zero_slope eq_refl) as [Hiff Hchain].
  assert (Hb : bBypass (update_settings zero_slope) = true).
  { apply Hiff. right. rewrite zero_slope_value.
    cbn [f_lit R_FloatOps]. rewrite Q2R_zero. apply R_feq_true. }
  split; [exact Hb | exact (Hchain Hb)].
Defined.

(** X3 on the band 15 kHz - 20 kHz at 48 kHz. *)
Lemma band_ordered_witness :
  bSync band_example = true
  /\ fge (fLowerFrequency (update_settings band_example))
         (fUpperFrequency (update_settings band_example)) = false.
Proof.
  split; [reflexivity |].
  exact (band_ordered_after_sync band_example eq_refl).
Defined.

(** X5 on a requested order of 101: the order 100. *)
Lemma effective_order_range_witness :
  bSync order_101 = true
  /\ (nOrder order_101 < SIZE_MODULUS)%N
  /\ nOrder (update_settings order_101) = 100%N.
Proof.
  split; [reflexivity |].
  split; [reflexivity |].
  destruct (effective_order_range order_101 eq_refl eq_refl)
    as (_ & H & _).
  apply H. cbn [nOrder order_101 set_order]. unfold SIZE_MODULUS. lia.
Defined.

(** X6 on a requested order of 3: the two sections of the ladder. *)
Lemma chain_closed_form_witness :
  bSync order_three = true
  /\ bBypass (update_settings order_three) = false
  /\ vChains (sFilter (update_settings order_three))
     = map (section_at (enNorm (update_settings order_three))
                       (nSampleRate (update_settings order_three))
                       (ladder_ratio (update_settings order_three))
                       (prewarp (update_settings order_three))
                       (ladder_zero (update_settings order_three))
                       (ladder_pole (update_settings order_three)))
           [0; 1]%nat.
Proof.
  split; [reflexivity |].
  split; [exact order_three_active |].
  assert (Hroom : (N.to_nat (MAX_ORDER / 2)
                   <= nMaxItems (sFilter order_three))%nat)
    by (cbn; lia).
  pose proof (chain_closed_form order_three eq_refl Hroom
                order_three_active) as H.
  cbv zeta in H. rewrite order_three_effective in H. exact H.
Defined.

(** X8 on three hundred of six hundred samples through an active chain. *)
Lemma streaming_stays_in_bounds_witness :
  bBypass (update_settings tilt_44100) = false
  /\ kept_beyond (repeat 0 600) 300
       (snd (process_add (update_settings tilt_44100)
                         (repeat 0 600) (Some ramp) 300)).
Proof.
  split; [exact tilt_44100_active |].
  destruct ramp_buffers as [Hd Hs].
  exact (proj1 (@streaming_stays_in_bounds R R_FloatOps
                  (update_settings tilt_44100) (repeat 0 600) (Some ramp)
                  300 Hd Hs)).
Defined.

(** X10 on a requested order of 0 at 44.1 kHz. *)
Lemma order_zero_witness :
  bSync order_0 = true
  /\ nOrder (update_settings order_0) = 0%N
  /\ bBypass (update_settings order_0) = false
  /\ vChains (sFilter (update_settings order_0)) = []
  /\ process_overwrite (update_settings order_0) [0; 0] (Some [1; 2]) 2
     = (update_settings order_0, [1; 2]).
Proof.
  split; [reflexivity |].
  split; [exact order_0_effective |].
  split; [exact order_0_active |].
  destruct (order_zero_passes_through order_0 eq_refl eq_refl
              order_0_effective order_0_active) as [He Hp].
  split; [exact He |].
  rewrite Hp. reflexivity.
Defined.

(** X11 on the default band at 8 kHz: the upper edge stays at 20 kHz,
    above the Nyquist frequency of 4 kHz. *)
Lemma upper_edge_witness :
  bSync slow_rate = true
  /\ fUpperFrequency (update_settings slow_rate) = 20000
  /\ fge (fUpperFrequency (update_settings slow_rate))
         (fmul (f_lit 0.5) (f_of_size (nSampleRate slow_rate))) = true.
Proof.
  split; [reflexivity |].
  exact (upper_edge_stays_above_nyquist slow_rate eq_refl slow_rate_bound
           slow_rate_upper).
Defined.

(** X12 on the default object at 44.1 kHz. *)
Lemma ladder_witness :
  bSync tilt_44100 = true
  /\ 1 < ladder_ratio (update_settings tilt_44100)
  /\ 0 < ladder_pole (update_settings tilt_44100)
  /\ 0 < ladder_zero (update_settings tilt_44100).
Proof.
  split; [reflexivity |].
  destruct (ladder_is_geometric tilt_44100 eq_refl tilt_44100_lower)
    as (H1 & H2 & H3 & _).
  split; [exact H1 |]. split; [exact H2 | exact H3].
Defined.

(** X13 on the prewarp coefficient of line 215 at 44.1 kHz. *)
Lemma bilinear_coefficient_witness :
  0 < prewarp (update_settings tilt_44100).
Proof.
  destruct (@prewarp_conditions 44100%N ltac:(lia)) as (Hw & Hfs & Hlt).
  destruct (bilinear_coefficient_positive Hw Hfs Hlt) as [_ H].
  destruct (update_settings_pending tilt_44100 eq_refl)
    as (_ & _ & _ & _ & _ & _ & Hr & _).
  unfold prewarp. rewrite Hr. exact H.
Defined.

End ExtraRuns.
